(** * EPBot wrapper: auction tracker, convention-file reader and facade

    A shallow embedding of [src/wrapper/src/epbot_wrapper.cpp] (with the
    declarations of [src/wrapper/include/epbot_ffi.h]) and the properties
    of the specification checked against it.

    Conventions of the embedding:
    - [std::string] is [string]; a [const char*] argument that may be
      [nullptr] is an [option string];
    - [std::vector<std::string>] is [list string]; an element access
      [v[i]] is the partial lookup [v !! i], and an access outside the
      vector is the fault [Undefined], never a default value;
    - [int], [int32_t] and the C enums are [Z]; arithmetic on them and
      conversions to them go through [wrap32];
    - [size_t] values are sizes and positions inside a string or a vector
      and are [nat]; [std::string::npos] is [None];
    - [std::unordered_map<std::string,int>] is [gmap string Z];
    - the managed engine object is an abstract type with one operation,
      [invoke], that answers a property access with a value or with a
      managed exception. *)

From Stdlib Require Import ZArith Ascii String List Lia Bool.
From stdpp Require Import base option list gmap strings.

Local Open Scope string_scope.
Local Open Scope list_scope.
Local Open Scope Z_scope.

(** ** Machine integers *)

Definition INT_MIN : Z := - 2 ^ 31.
Definition INT_MAX : Z := 2 ^ 31 - 1.

(** Conversion to a 32-bit two's complement [int]. *)
Definition wrap32 (z : Z) : Z := (z + 2 ^ 31) mod 2 ^ 32 - 2 ^ 31.

Definition in_int32 (z : Z) : Prop := INT_MIN <= z <= INT_MAX.

(** [static_cast<int>(v.size())], [static_cast<int>(s.length())]. *)
Definition int_of_size (n : nat) : Z := wrap32 (Z.of_nat n).

(** ** [std::string] operations used by the wrapper *)

Module StdString.

Definition empty (s : string) : bool :=
  match s with EmptyString => true | String _ _ => false end.

(** [s[0]] on a non-empty string. *)
Definition front (s : string) : option ascii :=
  match s with EmptyString => None | String c _ => Some c end.

Fixpoint back (s : string) : option ascii :=
  match s with
  | EmptyString => None
  | String c EmptyString => Some c
  | String _ rest => back rest
  end.

Fixpoint pop_back (s : string) : string :=
  match s with
  | EmptyString => EmptyString
  | String _ EmptyString => EmptyString
  | String c rest => String c (pop_back rest)
  end.

(** [s.find(ch)]: position of the first occurrence. *)
Fixpoint find (ch : ascii) (s : string) : option nat :=
  match s with
  | EmptyString => None
  | String c rest =>
      if Ascii.eqb c ch then Some O else S <$> find ch rest
  end.

Fixpoint mem (c : ascii) (set : string) : bool :=
  match set with
  | EmptyString => false
  | String d rest => Ascii.eqb c d || mem c rest
  end.

(** [s.find_first_not_of(set)]. *)
Fixpoint find_first_not_of (set : string) (s : string) : option nat :=
  match s with
  | EmptyString => None
  | String c rest =>
      if mem c set then S <$> find_first_not_of set rest else Some O
  end.

(** [s.find_last_not_of(set)]. *)
Fixpoint find_last_not_of (set : string) (s : string) : option nat :=
  match s with
  | EmptyString => None
  | String c rest =>
      match find_last_not_of set rest with
      | Some i => Some (S i)
      | None => if mem c set then None else Some O
      end
  end.

(** [s.substr(pos, count)], for [pos <= s.size()]. *)
Definition substr (s : string) (pos count : nat) : string :=
  String.substring pos count s.

(** [s.substr(pos)], for [pos <= s.size()]. *)
Definition substr_from (s : string) (pos : nat) : string :=
  String.substring pos (String.length s - pos) s.

End StdString.

(** ** [std::stoi] *)

Definition isspace (c : ascii) : bool :=
  StdString.mem c (String " " (String "009" (String "010"
    (String "011" (String "012" (String "013" EmptyString)))))).

Definition digit_value (c : ascii) : option Z :=
  let n := Z.of_nat (nat_of_ascii c) in
  if (48 <=? n) && (n <=? 57) then Some (n - 48) else None.

Fixpoint skip_spaces (s : string) : string :=
  match s with
  | String c rest => if isspace c then skip_spaces rest else s
  | EmptyString => s
  end.

(** Longest prefix of decimal digits, accumulated from [acc]; [None] when
    the prefix is empty and nothing was read before. *)
Fixpoint read_digits (seen : bool) (acc : Z) (s : string) : option Z :=
  match s with
  | String c rest =>
      match digit_value c with
      | Some d => read_digits true (10 * acc + d) rest
      | None => if seen then Some acc else None
      end
  | EmptyString => if seen then Some acc else None
  end.

(** [std::stoi(s)] in base 10: leading white space, an optional sign, then
    the longest run of digits; what follows the digits is ignored.  [None]
    stands for both exceptions of [stoi]: [std::invalid_argument] (no
    digit) and [std::out_of_range] (the value does not fit an [int]). *)
Definition stoi (s : string) : option Z :=
  let s1 := skip_spaces s in
  let '(negative, s2) :=
    match s1 with
    | String "-" rest => (true, rest)
    | String "+" rest => (false, rest)
    | _ => (false, s1)
    end in
  match read_digits false 0 s2 with
  | None => None
  | Some magnitude =>
      let value := if negative : bool then - magnitude else magnitude in
      if (INT_MIN <=? value) && (value <=? INT_MAX) then Some value else None
  end.

(** ** The convention-file reader *)

(** The lines [std::getline] delivers for a stream holding [content]: the
    text between line feeds, and no line for the empty text that follows
    the last line feed. *)
Fixpoint getlines_from (line : string) (content : string) : list string :=
  match content with
  | EmptyString => if StdString.empty line then [] else [line]
  | String c rest =>
      if Ascii.eqb c "010" then line :: getlines_from EmptyString rest
      else getlines_from (line ++ String c EmptyString) rest
  end.

Definition getlines (content : string) : list string :=
  getlines_from EmptyString content.

Definition trim_key (key : string) : string :=
  match StdString.find_first_not_of (String " " (String "009" EmptyString)) key,
        StdString.find_last_not_of (String " " (String "009" EmptyString)) key with
  | Some start, Some end_ => StdString.substr key start (end_ - start + 1)
  | _, _ => key
  end.

Definition trim_value (value_str : string) : string :=
  match StdString.find_first_not_of (String " " (String "009" EmptyString)) value_str,
        StdString.find_last_not_of
          (String " " (String "009" (String "013" (String "010" EmptyString))))
          value_str with
  | Some start, Some end_ => StdString.substr value_str start (end_ - start + 1)
  | _, _ => value_str
  end.

(** [if (!line.empty() && line.back() == '\r') line.pop_back();] *)
Definition without_cr (line : string) : string :=
  if negb (StdString.empty line)
     && bool_decide (StdString.back line = Some "013"%char)
  then StdString.pop_back line else line.

(** One iteration of the [while (std::getline(file, line))] loop of
    [ParseBbsaFile]: the entry the line stores, if any. *)
Definition bbsa_line (line : string) : option (string * Z) :=
  if StdString.empty line
     || bool_decide (StdString.front line = Some "#"%char)
     || bool_decide (StdString.front line = Some ";"%char)
  then None
  else
    let line := without_cr line in
    match StdString.find "="%char line with
    | None => None
    | Some eq_pos =>
        let key := StdString.substr line 0 eq_pos in
        let value_str := StdString.substr_from line (eq_pos + 1) in
        let key := trim_key key in
        let value_str := trim_value value_str in
        match stoi value_str with
        | Some value => Some (key, value)
        | None => None
        end
    end.

(** The loop body as a map update: [conventions[key] = value]. *)
Definition bbsa_step (conventions : gmap string Z) (line : string)
  : gmap string Z :=
  match bbsa_line line with
  | Some (key, value) => <[key := value]> conventions
  | None => conventions
  end.

(** A file system answers a path with the text of the file, or with
    [None] when the file cannot be opened. *)
Definition FileSystem : Type := string → option string.

Definition ParseBbsaFile (fs : FileSystem) (path : string) : gmap string Z :=
  match fs path with
  | None => ∅
  | Some content => foldl bbsa_step ∅ (getlines content)
  end.

(** ** Declarations of [epbot_ffi.h] *)

Inductive EPBotError : Set :=
| EPBOT_OK
| EPBOT_ERR_NULL_HANDLE
| EPBOT_ERR_INVALID_HAND
| EPBOT_ERR_INVALID_DEALER
| EPBOT_ERR_INVALID_VULNERABILITY
| EPBOT_ERR_INVALID_CONVENTION_FILE
| EPBOT_ERR_BIDDING_FAILED
| EPBOT_ERR_CLR_EXCEPTION
| EPBOT_ERR_OUT_OF_MEMORY
| EPBOT_ERR_AUCTION_COMPLETE.

Definition error_value (e : EPBotError) : Z :=
  match e with
  | EPBOT_OK => 0
  | EPBOT_ERR_NULL_HANDLE => -1
  | EPBOT_ERR_INVALID_HAND => -2
  | EPBOT_ERR_INVALID_DEALER => -3
  | EPBOT_ERR_INVALID_VULNERABILITY => -4
  | EPBOT_ERR_INVALID_CONVENTION_FILE => -5
  | EPBOT_ERR_BIDDING_FAILED => -6
  | EPBOT_ERR_CLR_EXCEPTION => -7
  | EPBOT_ERR_OUT_OF_MEMORY => -8
  | EPBOT_ERR_AUCTION_COMPLETE => -9
  end.

Definition DEALER_NORTH : Z := 0.
Definition DEALER_EAST : Z := 1.
Definition DEALER_SOUTH : Z := 2.
Definition DEALER_WEST : Z := 3.

Definition VUL_NONE : Z := 0.
Definition VUL_NS : Z := 1.
Definition VUL_EW : Z := 2.
Definition VUL_BOTH : Z := 3.

Definition SIDE_NS : Z := 0.
Definition SIDE_EW : Z := 1.

(** ** The engine *)

(** The convention properties of the managed object that
    [epbot_set_convention] assigns. *)
Inductive ConventionProperty : Set :=
| Bergen
| Stayman
| Blackwood_0314
| Blackwood_1430
| Jacoby_2NT
| Cappelletti
| Drury
| Lebensohl
| Michaels_Cuebid
| Splinter
| Texas_Transfer
| Unusual_2NT.

(** The accesses the wrapper makes to [EPBot64::EPBot]. *)
Inductive EngineCall : Set :=
| set_HAND (pbn : string)
| set_Dealer (dealer : Z)
| set_Vulnerability (vul : Z)
| set_Position (position : Z)
| get_bid
| set_bid (bid : string)
| set_convention (property : ConventionProperty) (value : Z).

(** What an access answers: a value (the marshalled [String^] of a getter,
    [None] for [nullptr] and for setters), or a managed [Exception^] with
    its [Message]. *)
Inductive Reply : Set :=
| Value (result : option string)
| Exception (Message : string).

(** The engine is opaque: a state and its reaction to an access.  An
    access that throws may still have changed the state. *)
Class EPBot (Engine : Type) := invoke : Engine → EngineCall → Engine * Reply.

(** [ManagedToStd] *)
Definition ManagedToStd (managed : option string) : string :=
  match managed with
  | None => ""
  | Some s => s
  end.

(** ** Instance state *)

Record EPBotHandle (Engine : Type) : Type := {
  instance : Engine;
  auction : list string;
  current_position : Z;
  dealer : Z;
  auction_started : bool
}.
Arguments instance {Engine} _.
Arguments auction {Engine} _.
Arguments current_position {Engine} _.
Arguments dealer {Engine} _.
Arguments auction_started {Engine} _.

(** What lives outside the instance: the thread's [g_last_error], and the
    accesses made to engines so far, oldest first (a ghost trace). *)
Record Env : Type := {
  g_last_error : string;
  engine_calls : list EngineCall
}.

(** ** The auction rule *)

(** [bid == "Pass" || bid == "P"] *)
Definition is_pass (bid : string) : bool :=
  String.eqb bid "Pass" || String.eqb bid "P".

(** The [for] loop of [IsAuctionComplete] with its [break]. *)
Fixpoint has_bid_scan (auction : list string) : bool :=
  match auction with
  | [] => false
  | bid :: rest =>
      if negb (String.eqb bid "Pass") && negb (String.eqb bid "P") then true
      else has_bid_scan rest
  end.

(** [IsAuctionComplete]; [None] is an element access outside the vector. *)
Definition IsAuctionComplete (auction : list string) : option bool :=
  let size := length auction in
  if (size <? 4)%nat then Some false
  else
    let has_bid := has_bid_scan auction in
    if negb has_bid then Some (4 <=? size)%nat
    else if (3 <=? size)%nat then
      b1 ← auction !! (size - 1)%nat;
      b2 ← auction !! (size - 2)%nat;
      b3 ← auction !! (size - 3)%nat;
      if is_pass b1 && is_pass b2 && is_pass b3 then Some true
      else Some false
    else Some false.

(** [GetCurrentBidderPosition]: [%] truncates towards zero. *)
Definition GetCurrentBidderPosition {Engine} (handle : EPBotHandle Engine) : Z :=
  Z.rem (wrap32 (dealer handle + current_position handle)) 4.

(** ** Caller-owned memory *)

Definition NUL : ascii := "000"%char.

(** The C string [s.c_str()] denotes: the characters before the first
    NUL. *)
Fixpoint c_str (s : string) : string :=
  match s with
  | EmptyString => EmptyString
  | String c rest =>
      if Ascii.eqb c NUL then EmptyString else String c (c_str rest)
  end.

(** [strncpy(dest, src, n)] writes exactly [n] bytes: the characters of
    the C string [src], then NUL padding.  [None] when [dest] has fewer
    than [n] bytes. *)
Definition strncpy (dest : list ascii) (src : string) (n : nat)
  : option (list ascii) :=
  if (n <=? length dest)%nat
  then Some (take n (list_ascii_of_string (c_str src) ++ replicate n NUL)
             ++ drop n dest)
  else None.

(** [a[i] = x] on an array or a vector, the [int] index converted to
    [size_t]: a negative index is far outside. *)
Definition store {A} (a : list A) (i : Z) (x : A) : option (list A) :=
  if (0 <=? i) && (i <? Z.of_nat (length a))
  then Some (<[Z.to_nat i := x]> a)
  else None.

(** [a[i]] *)
Definition load {A} (a : list A) (i : Z) : option A :=
  if 0 <=? i then a !! Z.to_nat i else None.

(** ** Function bodies: state, managed exceptions and faults *)

Inductive Result (S A : Type) : Type :=
| Normal (a : A) (s : S)            (* the code went on, or returned [a] *)
| Thrown (Message : string) (s : S) (* a managed exception is in flight *)
| Undefined                         (* access outside a vector or buffer *)
| Exhausted.                        (* the loop budget of the model ran out *)
Arguments Normal {S A} _ _.
Arguments Thrown {S A} _ _.
Arguments Undefined {S A}.
Arguments Exhausted {S A}.

Definition Body (S A : Type) : Type := S → Result S A.

Global Instance body_ret {S} : MRet (Body S) := λ A a s, Normal a s.

Global Instance body_bind {S} : MBind (Body S) := λ A B f m s,
  match m s with
  | Normal a s' => f a s'
  | Thrown msg s' => Thrown msg s'
  | Undefined => Undefined
  | Exhausted => Exhausted
  end.

(** [try { body } catch (Exception^ ex) { handler(ex->Message) }] *)
Definition try_catch {S A} (body : Body S A) (handler : string → Body S A)
  : Body S A := λ s,
  match body s with
  | Thrown msg s' => handler msg s'
  | r => r
  end.

(** A partial access: outside its domain the behaviour is undefined. *)
Definition checked {S A} (o : option A) : Body S A := λ s,
  match o with
  | Some a => Normal a s
  | None => Undefined
  end.

Definition exhausted {S A} : Body S A := λ _, Exhausted.

Section Wrapper.

Context {Engine : Type} `{!EPBot Engine}.

Local Abbreviation Handle := (EPBotHandle Engine).
Local Abbreviation M := (Body (Handle * Env)).

(** *** Field updates *)

Definition with_instance (e : Engine) (h : Handle) : Handle :=
  {| instance := e; auction := auction h;
     current_position := current_position h; dealer := dealer h;
     auction_started := auction_started h |}.

Definition with_auction (a : list string) (h : Handle) : Handle :=
  {| instance := instance h; auction := a;
     current_position := current_position h; dealer := dealer h;
     auction_started := auction_started h |}.

Definition with_current_position (p : Z) (h : Handle) : Handle :=
  {| instance := instance h; auction := auction h;
     current_position := p; dealer := dealer h;
     auction_started := auction_started h |}.

Definition with_dealer (d : Z) (h : Handle) : Handle :=
  {| instance := instance h; auction := auction h;
     current_position := current_position h; dealer := d;
     auction_started := auction_started h |}.

Definition with_auction_started (b : bool) (h : Handle) : Handle :=
  {| instance := instance h; auction := auction h;
     current_position := current_position h; dealer := dealer h;
     auction_started := b |}.

Definition with_last_error (msg : string) (env : Env) : Env :=
  {| g_last_error := msg; engine_calls := engine_calls env |}.

Definition with_call (c : EngineCall) (env : Env) : Env :=
  {| g_last_error := g_last_error env;
     engine_calls := engine_calls env ++ [c] |}.

(** *** Primitive steps *)

(** [handle->field] *)
Definition read {A} (field : Handle → A) : M A := λ s, Normal (field s.1) s.

(** [handle->field = v] *)
Definition update (f : Handle → Handle) : M unit :=
  λ s, Normal () (f s.1, s.2).

(** [SetError] *)
Definition SetError (msg : string) : M unit :=
  λ s, Normal () (s.1, with_last_error msg s.2).

(** An access to [handle->instance]. *)
Definition engine (c : EngineCall) : M (option string) := λ s,
  let '(e, reply) := invoke (instance s.1) c in
  let s' := (with_instance e s.1, with_call c s.2) in
  match reply with
  | Value v => Normal v s'
  | Exception msg => Thrown msg s'
  end.

(** An exported function: the null-handle check, then the rest of the
    function on the instance behind the handle.  [nullptr] is [None]. *)
Definition exported {R} (handle : option Handle) (on_null : R) (rest : M R)
  : Env → Result (option Handle * Env) R := λ env,
  match handle with
  | None => Normal on_null (None, with_last_error "Null instance handle" env)
  | Some h =>
      match rest (h, env) with
      | Normal r (h', env') => Normal r (Some h', env')
      | Thrown msg (h', env') => Thrown msg (Some h', env')
      | Undefined => Undefined
      | Exhausted => Exhausted
      end
  end.

(** *** Hand setup *)

Definition epbot_set_deal (handle : option Handle) (deal_pbn : option string) :=
  exported handle EPBOT_ERR_NULL_HANDLE
    match deal_pbn with
    | None => SetError "Null deal string";; mret EPBOT_ERR_INVALID_HAND
    | Some pbn =>
        try_catch
          (engine (set_HAND pbn);;
           update (with_auction []);;
           update (with_current_position 0);;
           update (with_auction_started false);;
           mret EPBOT_OK)
          (λ Message, SetError Message;; mret EPBOT_ERR_INVALID_HAND)
    end.

Definition epbot_set_dealer (handle : option Handle) (dealer : Z) :=
  exported handle EPBOT_ERR_NULL_HANDLE
    (if (dealer <? DEALER_NORTH) || (dealer >? DEALER_WEST)
     then SetError "Invalid dealer position";; mret EPBOT_ERR_INVALID_DEALER
     else
       try_catch
         (update (with_dealer dealer);;
          engine (set_Dealer dealer);;
          mret EPBOT_OK)
         (λ Message, SetError Message;; mret EPBOT_ERR_INVALID_DEALER)).

Definition epbot_set_vulnerability (handle : option Handle) (vul : Z) :=
  exported handle EPBOT_ERR_NULL_HANDLE
    (if (vul <? VUL_NONE) || (vul >? VUL_BOTH)
     then SetError "Invalid vulnerability";;
          mret EPBOT_ERR_INVALID_VULNERABILITY
     else
       try_catch
         (engine (set_Vulnerability vul);;
          mret EPBOT_OK)
         (λ Message, SetError Message;; mret EPBOT_ERR_INVALID_VULNERABILITY)).

(** *** Bidding *)

(** The caller's [buffer] is its bytes ([None] for [nullptr]); a function
    returns the bytes as it leaves them. *)
Definition epbot_get_next_bid (handle : option Handle)
    (buffer : option (list ascii)) (buffer_size : Z) :=
  exported handle (EPBOT_ERR_NULL_HANDLE, buffer)
    match buffer with
    | None => SetError "Invalid buffer";; mret (EPBOT_ERR_OUT_OF_MEMORY, buffer)
    | Some bytes =>
        if buffer_size <? 1
        then SetError "Invalid buffer";; mret (EPBOT_ERR_OUT_OF_MEMORY, buffer)
        else
          try_catch
            (sequence ← read auction;
             complete ← checked (IsAuctionComplete sequence);
             if complete : bool
             then SetError "Auction is complete";;
                  mret (EPBOT_ERR_AUCTION_COMPLETE, buffer)
             else
               bidder_position ← read GetCurrentBidderPosition;
               engine (set_Position bidder_position);;
               bid_managed ← engine get_bid;
               let bid := ManagedToStd bid_managed in
               let bid := if StdString.empty bid then "Pass" else bid in
               sequence ← read auction;
               update (with_auction (sequence ++ [bid]));;
               position ← read current_position;
               update (with_current_position (wrap32 (position + 1)));;
               update (with_auction_started true);;
               if int_of_size (String.length bid) >=? buffer_size
               then SetError "Buffer too small";;
                    mret (EPBOT_ERR_OUT_OF_MEMORY, buffer)
               else
                 bytes ← checked (strncpy bytes bid (Z.to_nat (buffer_size - 1)));
                 bytes ← checked (store bytes (buffer_size - 1) NUL);
                 mret (EPBOT_OK, Some bytes))
            (λ Message,
               SetError Message;; mret (EPBOT_ERR_BIDDING_FAILED, buffer))
    end.

(** The [while] loop of [epbot_set_bid]; every iteration spends one unit
    of [fuel]. *)
Fixpoint extend_auction (fuel : nat) (bid_index : Z) : M unit :=
  sequence ← read auction;
  if int_of_size (length sequence) <=? bid_index
  then
    match fuel with
    | O => exhausted
    | S fuel' =>
        update (with_auction (sequence ++ [""]));;
        extend_auction fuel' bid_index
    end
  else mret ().

Definition epbot_set_bid (fuel : nat) (handle : option Handle)
    (bid_index : Z) (bid : option string) :=
  exported handle EPBOT_ERR_NULL_HANDLE
    match bid with
    | None => SetError "Null bid string";; mret EPBOT_ERR_BIDDING_FAILED
    | Some bid =>
        try_catch
          (extend_auction fuel bid_index;;
           sequence ← read auction;
           sequence ← checked (store sequence bid_index bid);
           update (with_auction sequence);;
           engine (set_bid bid);;
           mret EPBOT_OK)
          (λ Message, SetError Message;; mret EPBOT_ERR_BIDDING_FAILED)
    end.

Definition epbot_get_bid (handle : option Handle) (bid_index : Z)
    (buffer : option (list ascii)) (buffer_size : Z) :=
  exported handle (EPBOT_ERR_NULL_HANDLE, buffer)
    match buffer with
    | None => SetError "Invalid buffer";; mret (EPBOT_ERR_OUT_OF_MEMORY, buffer)
    | Some bytes =>
        if buffer_size <? 1
        then SetError "Invalid buffer";; mret (EPBOT_ERR_OUT_OF_MEMORY, buffer)
        else
          try_catch
            (sequence ← read auction;
             if (bid_index <? 0)
                || (bid_index >=? int_of_size (length sequence))
             then SetError "Bid index out of range";;
                  mret (EPBOT_ERR_BIDDING_FAILED, buffer)
             else
               bid ← checked (load sequence bid_index);
               if int_of_size (String.length bid) >=? buffer_size
               then SetError "Buffer too small";;
                    mret (EPBOT_ERR_OUT_OF_MEMORY, buffer)
               else
                 bytes ← checked (strncpy bytes bid (Z.to_nat (buffer_size - 1)));
                 bytes ← checked (store bytes (buffer_size - 1) NUL);
                 mret (EPBOT_OK, Some bytes))
            (λ Message,
               SetError Message;; mret (EPBOT_ERR_BIDDING_FAILED, buffer))
    end.

(** An output pointer is the value it points to ([None] for [nullptr]); a
    function returns the value as it leaves it. *)
Definition epbot_get_bid_count (handle : option Handle) (count : option Z) :=
  exported handle (EPBOT_ERR_NULL_HANDLE, count)
    match count with
    | None => SetError "Null count pointer";;
              mret (EPBOT_ERR_BIDDING_FAILED, count)
    | Some _ =>
        sequence ← read auction;
        mret (EPBOT_OK, Some (int_of_size (length sequence)))
    end.

Definition epbot_clear_auction (handle : option Handle) :=
  exported handle EPBOT_ERR_NULL_HANDLE
    (try_catch
       (update (with_auction []);;
        update (with_current_position 0);;
        update (with_auction_started false);;
        mret EPBOT_OK)
       (λ Message, SetError Message;; mret EPBOT_ERR_CLR_EXCEPTION)).

Definition epbot_is_auction_complete (handle : option Handle)
    (is_complete : option bool) :=
  exported handle (EPBOT_ERR_NULL_HANDLE, is_complete)
    match is_complete with
    | None => SetError "Null output pointer";;
              mret (EPBOT_ERR_BIDDING_FAILED, is_complete)
    | Some _ =>
        sequence ← read auction;
        complete ← checked (IsAuctionComplete sequence);
        mret (EPBOT_OK, Some complete)
    end.

(** *** Convention configuration *)

(** The [if]/[else if] chain of [epbot_set_convention]: the property a key
    selects, if any. *)
Definition property_of_key (keyStr : string) : option ConventionProperty :=
  if String.eqb keyStr "Bergen" || String.eqb keyStr "Bergen raises"
  then Some Bergen
  else if String.eqb keyStr "Stayman" then Some Stayman
  else if String.eqb keyStr "Blackwood 0314" then Some Blackwood_0314
  else if String.eqb keyStr "Blackwood 1430" then Some Blackwood_1430
  else if String.eqb keyStr "Jacoby 2NT" then Some Jacoby_2NT
  else if String.eqb keyStr "Cappelletti" then Some Cappelletti
  else if String.eqb keyStr "Drury" then Some Drury
  else if String.eqb keyStr "Lebensohl" then Some Lebensohl
  else if String.eqb keyStr "Michaels Cuebid" then Some Michaels_Cuebid
  else if String.eqb keyStr "Splinter" then Some Splinter
  else if String.eqb keyStr "Texas Transfer" then Some Texas_Transfer
  else if String.eqb keyStr "Unusual 2NT" then Some Unusual_2NT
  else None.

(** [epbot_set_convention] after its null-handle check. *)
Definition set_convention_rest (key : option string) (value : Z) (side : Z)
  : M EPBotError :=
  match key with
  | None => SetError "Null convention key";; mret EPBOT_ERR_CLR_EXCEPTION
  | Some key =>
      try_catch
        (let keyStr := c_str key in
         match property_of_key keyStr with
         | Some property =>
             engine (set_convention property value);; mret EPBOT_OK
         | None => mret EPBOT_OK
         end)
        (λ Message, SetError Message;; mret EPBOT_ERR_CLR_EXCEPTION)
  end.

Definition epbot_set_convention (handle : option Handle)
    (key : option string) (value : Z) (side : Z) :=
  exported handle EPBOT_ERR_NULL_HANDLE (set_convention_rest key value side).

(** [try { body } catch (...) { }] *)
Definition try_catch_all (body : M unit) : M unit := λ s,
  match body s with
  | Thrown _ s' => Normal () s'
  | r => r
  end.

(** A range-based [for]. *)
Fixpoint for_each {A} (l : list A) (body : A → M unit) : M unit :=
  match l with
  | [] => mret ()
  | x :: rest => body x;; for_each rest body
  end.

(** The order in which a range-based [for] visits an [unordered_map] is
    the implementation's: some enumeration of the entries. *)
Record Traversal : Type := {
  entries : gmap string Z → list (string * Z);
  entries_perm : ∀ m, entries m ≡ₚ map_to_list m
}.

(** Inside the loop the handle is the non-null one of the caller, so the
    call to [epbot_set_convention] runs [set_convention_rest] on the same
    instance; its return code is dropped. *)
Definition epbot_load_conventions (fs : FileSystem) (order : Traversal)
    (handle : option Handle) (file_path : option string) (side : Z) :=
  exported handle EPBOT_ERR_NULL_HANDLE
    match file_path with
    | None => SetError "Null file path";;
              mret EPBOT_ERR_INVALID_CONVENTION_FILE
    | Some path =>
        try_catch
          (let conventions := ParseBbsaFile fs path in
           if bool_decide (conventions = ∅)
           then SetError "Failed to parse convention file or file is empty";;
                mret EPBOT_ERR_INVALID_CONVENTION_FILE
           else
             for_each (entries order conventions)
               (λ '(key, value),
                  try_catch_all
                    (set_convention_rest (Some key) value side;; mret ()));;
             mret EPBOT_OK)
          (λ Message,
             SetError Message;; mret EPBOT_ERR_INVALID_CONVENTION_FILE)
    end.

End Wrapper.

(** ** A scripted engine

    The simplest engine behind the interface: it recommends the bids of a
    script, one per reading of [bid] ([nullptr] once the script is over),
    accepts every setting, and throws on the accesses listed in
    [failing]. *)

Inductive Access : Set :=
| on_HAND | on_Dealer | on_Vulnerability | on_Position
| on_get_bid | on_set_bid | on_convention.

Definition access_of (c : EngineCall) : Access :=
  match c with
  | set_HAND _ => on_HAND
  | set_Dealer _ => on_Dealer
  | set_Vulnerability _ => on_Vulnerability
  | set_Position _ => on_Position
  | get_bid => on_get_bid
  | set_bid _ => on_set_bid
  | set_convention _ _ => on_convention
  end.

Global Instance access_eq_dec : EqDecision Access.
Proof. solve_decision. Defined.

Record Scripted : Type := {
  script : list string;
  failing : list Access
}.

Global Instance scripted_engine : EPBot Scripted := λ e c,
  if bool_decide (access_of c ∈ failing e)
  then (e, Exception "engine fault")
  else
    match c with
    | get_bid =>
        match script e with
        | [] => (e, Value None)
        | b :: rest => ({| script := rest; failing := failing e |}, Value (Some b))
        end
    | _ => (e, Value None)
    end.

(** The instance [epbot_create] returns, around the engine [e]. *)
Definition created {Engine} (e : Engine) : EPBotHandle Engine :=
  {| instance := e; auction := []; current_position := 0;
     dealer := DEALER_NORTH; auction_started := false |}.

Definition env0 : Env := {| g_last_error := ""; engine_calls := [] |}.

(** ** The specification's vocabulary *)

(** A pass token: ["Pass"] or ["P"]. *)
Definition PassToken (bid : string) : Prop := bid = "Pass" ∨ bid = "P".

(** The last three entries exist and are pass tokens. *)
Definition last_three_pass (auction : list string) : Prop :=
  ∃ front b3 b2 b1, auction = front ++ [b3; b2; b1]
    ∧ PassToken b3 ∧ PassToken b2 ∧ PassToken b1.

(** Letter case: the lower-case form of a token. *)
Definition to_lower (c : ascii) : ascii :=
  let n := nat_of_ascii c in
  if (65 <=? n)%nat && (n <=? 90)%nat then ascii_of_nat (n + 32) else c.

Fixpoint lowercase (s : string) : string :=
  match s with
  | EmptyString => EmptyString
  | String c rest => String (to_lower c) (lowercase rest)
  end.

(** A pass token up to letter case: "Pass", "pass", "PASS", "P", "p", ... *)
Definition PassSpelling (bid : string) : Prop :=
  lowercase bid = "pass" ∨ lowercase bid = "p".

(** The engine access an entry of a convention map leads to: the setter
    of the property its key selects, none for any other key. *)
Definition convention_call (entry : string * Z) : option EngineCall :=
  (λ property, set_convention property entry.2)
    <$> property_of_key (c_str entry.1).

(** The engine after a series of accesses, thrown exceptions ignored. *)
Definition run_calls {Engine} `{!EPBot Engine} (e : Engine)
    (calls : list EngineCall) : Engine :=
  foldl (λ e c, (invoke e c).1) e calls.

(** The traversal in the order of [map_to_list]. *)
Definition listed : Traversal :=
  {| entries := map_to_list; entries_perm := λ m, reflexivity _ |}.

(** White space of a key: a space or a tab. *)
Definition blank (c : ascii) : Prop := c = " "%char ∨ c = "009"%char.

(** [trimmed] is [raw] without its leading and trailing blanks; a [raw]
    made of blanks only (or empty) is left as it is. *)
Definition Trimmed (raw trimmed : string) : Prop :=
  let l := list_ascii_of_string raw in
  let t := list_ascii_of_string trimmed in
  (Forall blank l ∧ trimmed = raw)
  ∨ (∃ pre post, l = pre ++ t ++ post
       ∧ Forall blank pre ∧ Forall blank post
       ∧ (∃ c, head t = Some c ∧ ¬ blank c)
       ∧ (∃ c, last t = Some c ∧ ¬ blank c)).

(** The example file of the specification. *)
Definition example_lines : list string :=
  ["# comment"; ""; "Stayman = 1"; "garbage_no_equals"; "Bad=notanumber"].

Definition example_file : string :=
  String.concat (String "010" EmptyString) example_lines.

(** ** Instance management *)

(** What [gcnew EPBot64::EPBot()] gives: the object, or a managed
    exception. *)
Inductive Construction (Engine : Type) : Type :=
| Constructed (e : Engine)
| ConstructionFailed (Message : string).
Arguments Constructed {Engine} _.
Arguments ConstructionFailed {Engine} _.

(** [epbot_create]: the handle ([None] for [nullptr]) and the
    environment it leaves. *)
Definition epbot_create {Engine} (gcnew : Construction Engine) (env : Env)
  : option (EPBotHandle Engine) * Env :=
  match gcnew with
  | Constructed e => (Some (created e), env)
  | ConstructionFailed msg =>
      (None, {| g_last_error := msg; engine_calls := engine_calls env |})
  end.

(** [epbot_get_last_error] *)
Definition epbot_get_last_error (env : Env) : string := g_last_error env.

(** [epbot_get_version] *)
Definition epbot_get_version : string := "8736".

(** ** Vocabulary of the further properties *)

(** The keys the [if]/[else if] chain of [epbot_set_convention] names. *)
Definition known_keys : list string :=
  ["Bergen"; "Bergen raises"; "Stayman"; "Blackwood 0314"; "Blackwood 1430";
   "Jacoby 2NT"; "Cappelletti"; "Drury"; "Lebensohl"; "Michaels Cuebid";
   "Splinter"; "Texas Transfer"; "Unusual 2NT"].

(** What the tracker keeps true of an instance: the dealer is a seat, the
    cursor is between 0 and the number of recorded bids, it is 0 until
    the auction has started, and a started auction has a bid. *)
Definition tracker_invariant {Engine} (h : EPBotHandle Engine) : Prop :=
  DEALER_NORTH <= dealer h <= DEALER_WEST
  ∧ 0 <= current_position h <= Z.of_nat (length (auction h))
  ∧ (auction_started h = false → current_position h = 0)
  ∧ (auction_started h = true → auction h ≠ []).

(** The bytes a bid leaves in a buffer of [n] bytes announced: its
    characters, NUL up to [n], then the bytes that were there. *)
Definition copied_out (bid : string) (n : nat) (bytes : list ascii)
  : list ascii :=
  list_ascii_of_string (c_str bid)
  ++ replicate (n - String.length (c_str bid)) NUL
  ++ drop n bytes.

(** The bid [epbot_get_next_bid] records for an answer of the engine. *)
Definition recorded_bid (managed : option string) : string :=
  if StdString.empty (ManagedToStd managed) then "Pass"
  else ManagedToStd managed.

(** The values the kept lines give to [key], in file order. *)
Definition stored_values (key : string) (lines : list string) : list Z :=
  omap (λ line,
          match bbsa_line line with
          | Some (k, value) => if decide (k = key) then Some value else None
          | None => None
          end) lines.

(** A carriage return, as a string. *)
Definition CR : string := String "013" EmptyString.

(** The moves the exported functions make on the tracker fields of an
    instance. *)
Inductive tracker_step {Engine} (h h' : EPBotHandle Engine) : Prop :=
| step_same :
    auction h' = auction h → current_position h' = current_position h →
    dealer h' = dealer h → auction_started h' = auction_started h →
    tracker_step h h'
| step_reset :
    auction h' = [] → current_position h' = 0 →
    dealer h' = dealer h → auction_started h' = false →
    tracker_step h h'
| step_dealer :
    auction h' = auction h → current_position h' = current_position h →
    DEALER_NORTH <= dealer h' <= DEALER_WEST →
    auction_started h' = auction_started h →
    tracker_step h h'
| step_bid (bid : string) :
    auction h' = auction h ++ [bid] →
    current_position h' = wrap32 (current_position h + 1) →
    dealer h' = dealer h → auction_started h' = true →
    tracker_step h h'
| step_write :
    (length (auction h) ≤ length (auction h'))%nat →
    current_position h' = current_position h →
    dealer h' = dealer h → auction_started h' = auction_started h →
    tracker_step h h'.

(** A call on the instance [h] that returns leaves an instance with the
    property [P]. *)
Definition keeps {Engine R} (P : EPBotHandle Engine → Prop)
    (h : EPBotHandle Engine)
    (call : option (EPBotHandle Engine) → Env
            → Result (option (EPBotHandle Engine) * Env) R) : Prop :=
  ∀ env r o env',
    call (Some h) env = Normal r (o, env') → ∃ h', o = Some h' ∧ P h'.

(** A call on the instance [h] that returns [EPBOT_OK] leaves the text of
    [epbot_get_last_error] as it was. *)
Definition quiet_on_success {Engine R} (code_of : R → EPBotError)
    (h : EPBotHandle Engine)
    (call : option (EPBotHandle Engine) → Env
            → Result (option (EPBotHandle Engine) * Env) R) : Prop :=
  ∀ env r o env',
    call (Some h) env = Normal r (o, env') → code_of r = EPBOT_OK →
    epbot_get_last_error env' = epbot_get_last_error env.

(** * Properties *)

(** ** The auction rule *)

Lemma is_pass_PassToken bid : is_pass bid = true ↔ PassToken bid.
Proof.
  unfold is_pass, PassToken.
  rewrite orb_true_iff, !String.eqb_eq. reflexivity.
Qed.

Lemma has_bid_scan_forallb auction :
  has_bid_scan auction = negb (forallb is_pass auction).
Proof.
  induction auction as [|bid rest IH]; simpl; [reflexivity|].
  unfold is_pass at 1.
  destruct (String.eqb bid "Pass"), (String.eqb bid "P"); simpl; auto.
Qed.

Lemma split_last_three {A} (l : list A) :
  (3 ≤ length l)%nat → ∃ front b3 b2 b1, l = front ++ [b3; b2; b1].
Proof.
  intros Hlen.
  exists (take (length l - 3) l).
  destruct (drop (length l - 3) l) as [|b3 [|b2 [|b1 [|? ?]]]] eqn:Hd;
    pose proof (f_equal length Hd) as Hl; rewrite length_drop in Hl;
    simpl in Hl; try lia.
  exists b3, b2, b1. rewrite <- Hd. symmetry. apply take_drop.
Qed.

(** [IsAuctionComplete] in closed form: it never leaves the vector, and it
    answers "at least four entries, the last three of them passes". *)
Lemma IsAuctionComplete_closed auction :
  IsAuctionComplete auction
  = Some ((4 <=? length auction)%nat
          && forallb is_pass (drop (length auction - 3) auction)).
Proof.
  unfold IsAuctionComplete.
  destruct (Nat.ltb_spec (length auction) 4) as [Hlt|Hge].
  { destruct (Nat.leb_spec 4 (length auction)); [lia|reflexivity]. }
  destruct (Nat.leb_spec 4 (length auction)) as [_|]; [|lia].
  destruct (Nat.leb_spec 3 (length auction)) as [_|]; [|lia].
  destruct (split_last_three auction) as (front & b3 & b2 & b1 & ->); [lia|].
  rewrite has_bid_scan_forallb, negb_involutive.
  rewrite length_app. simpl length.
  replace (length front + 3 - 1)%nat with (length front + 2)%nat by lia.
  replace (length front + 3 - 2)%nat with (length front + 1)%nat by lia.
  replace (length front + 3 - 3)%nat with (length front + 0)%nat by lia.
  rewrite !lookup_app_r by lia.
  replace (length front + 2 - length front)%nat with 2%nat by lia.
  replace (length front + 1 - length front)%nat with 1%nat by lia.
  replace (length front + 0 - length front)%nat with 0%nat by lia.
  rewrite Nat.add_0_r, drop_app_length.
  rewrite forallb_app. simpl.
  destruct (forallb is_pass front), (is_pass b3), (is_pass b2), (is_pass b1);
    reflexivity.
Qed.

Lemma forallb_is_pass auction :
  forallb is_pass auction = true ↔ Forall PassToken auction.
Proof.
  rewrite forallb_forall, Forall_forall.
  split; intros H bid Hin.
  - apply is_pass_PassToken, H, list_elem_of_In, Hin.
  - apply is_pass_PassToken, H, list_elem_of_In, Hin.
Qed.

(** Evaluation of a function body: unfold the monad, then compute. *)
Ltac run_body :=
  unfold exported, try_catch, try_catch_all, read, update, SetError, checked,
    exhausted, mbind, body_bind, mret, body_ret; simpl.

(** C1. [IsAuctionComplete], as [epbot_is_auction_complete] reports it, is
    the termination rule: it always answers (no access outside the
    vector); with fewer than four entries the auction is not complete;
    with no non-pass token it is complete iff it has at least four
    entries; otherwise it is complete iff its last three entries are pass
    tokens. *)
Theorem IsAuctionComplete_termination_rule
    {Engine} `{!EPBot Engine} (h : EPBotHandle Engine) (env : Env) (out : bool) :
  ∃ complete : bool,
    IsAuctionComplete (auction h) = Some complete
    ∧ epbot_is_auction_complete (Some h) (Some out) env
      = Normal (EPBOT_OK, Some complete) (Some h, env)
    ∧ ((length (auction h) < 4)%nat → complete = false)
    ∧ (Forall PassToken (auction h) →
       (complete = true ↔ (4 ≤ length (auction h))%nat))
    ∧ (¬ Forall PassToken (auction h) →
       (complete = true ↔ last_three_pass (auction h))).
Proof.
  destruct h as [e sequence position d started]; simpl.
  eexists. split; [apply IsAuctionComplete_closed|].
  split.
  { unfold epbot_is_auction_complete. run_body.
    rewrite IsAuctionComplete_closed. reflexivity. }
  split; [|split].
  - intros Hlt. destruct (Nat.leb_spec 4 (length sequence)); [lia|reflexivity].
  - intros Hall.
    assert (forallb is_pass (drop (length sequence - 3) sequence) = true) as ->.
    { apply forallb_is_pass, Forall_drop, Hall. }
    rewrite andb_true_r. apply Nat.leb_le.
  - intros Hbid. rewrite andb_true_iff, Nat.leb_le, forallb_is_pass.
    split.
    + intros [Hlen Htail].
      destruct (split_last_three sequence) as (front & b3 & b2 & b1 & ->);
        [lia|].
      rewrite length_app in Htail. simpl length in Htail.
      replace (length front + 3 - 3)%nat with (length front) in Htail by lia.
      rewrite drop_app_length in Htail.
      exists front, b3, b2, b1. split; [reflexivity|].
      inversion Htail as [|? ? H3 Htail2]; subst.
      inversion Htail2 as [|? ? H2 Htail1]; subst.
      inversion Htail1 as [|? ? H1 _]; subst. auto.
    + intros (front & b3 & b2 & b1 & -> & H3 & H2 & H1).
      rewrite length_app. simpl length.
      replace (length front + 3 - 3)%nat with (length front) by lia.
      rewrite drop_app_length. split.
      * destruct front as [|b0 front]; simpl; [|lia].
        exfalso. apply Hbid. simpl. repeat (constructor; [assumption|]).
        constructor.
      * repeat (constructor; [assumption|]). constructor.
Qed.

Lemma forallb_is_pass_replace n front t t' back :
  is_pass t = is_pass t' →
  forallb is_pass (drop n (front ++ t :: back))
  = forallb is_pass (drop n (front ++ t' :: back)).
Proof.
  intros Heq. revert n.
  induction front as [|b front IH]; intros [|n]; simpl.
  - rewrite Heq. reflexivity.
  - reflexivity.
  - f_equal. apply (IH 0%nat).
  - apply IH.
Qed.

(** C2, as the code has it: pass detection is by exact comparison with
    "Pass" and "P".  Replacing a pass token by the other exact spelling
    never changes the answer of [IsAuctionComplete]. *)
Theorem IsAuctionComplete_pass_abbreviation front t t' back :
  PassToken t → PassToken t' →
  IsAuctionComplete (front ++ t :: back)
  = IsAuctionComplete (front ++ t' :: back).
Proof.
  intros Ht Ht'.
  rewrite !IsAuctionComplete_closed, !length_app. simpl length.
  f_equal. f_equal.
  apply forallb_is_pass_replace.
  apply is_pass_PassToken in Ht, Ht'. congruence.
Qed.

Lemma IsAuctionComplete_pass_abbreviation_witness :
  PassToken "Pass" ∧ PassToken "P"
  ∧ IsAuctionComplete (["1H"] ++ "Pass" :: ["Pass"; "Pass"])
    = IsAuctionComplete (["1H"] ++ "P" :: ["Pass"; "Pass"]).
Proof.
  split; [left; reflexivity|].
  split; [right; reflexivity|].
  apply (IsAuctionComplete_pass_abbreviation ["1H"] "Pass" "P" ["Pass"; "Pass"]).
  - left; reflexivity.
  - right; reflexivity.
Defined.

(** C2, as stated, fails: "pass" is a case variant of the pass token
    "Pass", and replacing the last "Pass" of a passed-out auction by it
    turns the answer from complete to not complete. *)
Lemma IsAuctionComplete_lowercase_pass :
  PassSpelling "Pass" ∧ PassSpelling "pass"
  ∧ IsAuctionComplete (["Pass"; "Pass"; "Pass"] ++ "Pass" :: []) = Some true
  ∧ IsAuctionComplete (["Pass"; "Pass"; "Pass"] ++ "pass" :: []) = Some false.
Proof.
  split; [left; reflexivity|].
  split; [left; reflexivity|].
  split; reflexivity.
Qed.

(** ** Machine integers *)

Lemma wrap32_small z : INT_MIN <= z <= INT_MAX → wrap32 z = z.
Proof.
  unfold INT_MIN, INT_MAX, wrap32. intros Hz.
  rewrite Z.mod_small by lia. lia.
Qed.

Lemma wrap32_le z : 0 <= z → wrap32 z <= z.
Proof.
  unfold wrap32. intros Hz.
  pose proof (Z.mod_le (z + 2 ^ 31) (2 ^ 32)). lia.
Qed.

Lemma int_of_size_small n : Z.of_nat n <= INT_MAX → int_of_size n = Z.of_nat n.
Proof.
  intros Hn. apply wrap32_small. unfold INT_MIN. lia.
Qed.

(** ** [epbot_get_next_bid] *)

(** Once the rule holds, the call changes nothing but the error message,
    whatever buffer it is given. *)
Lemma epbot_get_next_bid_complete_frame
    {Engine} `{!EPBot Engine} (h : EPBotHandle Engine)
    (buffer : option (list ascii)) (buffer_size : Z) (env : Env) :
  IsAuctionComplete (auction h) = Some true →
  ∃ code msg,
    epbot_get_next_bid (Some h) buffer buffer_size env
    = Normal (code, buffer) (Some h, with_last_error msg env).
Proof.
  intros Hdone. unfold epbot_get_next_bid.
  destruct buffer as [bytes|]; [|run_body; eauto].
  destruct (Z.ltb_spec buffer_size 1); run_body; [eauto|].
  rewrite Hdone. simpl. eauto.
Qed.

(** C3. When the bid sequence already satisfies the termination rule,
    [epbot_get_next_bid] returns [EPBOT_ERR_AUCTION_COMPLETE]; the
    instance (bid sequence, cursor, started flag, dealer and engine) and
    the caller's buffer are as before, and no access to the engine is
    made. *)
Theorem epbot_get_next_bid_auction_complete
    {Engine} `{!EPBot Engine} (h : EPBotHandle Engine)
    (bytes : list ascii) (buffer_size : Z) (env : Env) :
  IsAuctionComplete (auction h) = Some true →
  1 <= buffer_size →
  ∃ env',
    epbot_get_next_bid (Some h) (Some bytes) buffer_size env
    = Normal (EPBOT_ERR_AUCTION_COMPLETE, Some bytes) (Some h, env')
    ∧ engine_calls env' = engine_calls env
    ∧ g_last_error env' = "Auction is complete".
Proof.
  intros Hdone Hsize.
  exists (with_last_error "Auction is complete" env).
  split; [|split; reflexivity].
  unfold epbot_get_next_bid.
  destruct (Z.ltb_spec buffer_size 1); [lia|].
  run_body. rewrite Hdone. reflexivity.
Qed.

Lemma epbot_get_next_bid_auction_complete_witness :
  let h := {| instance := {| script := ["2C"]; failing := [] |};
              auction := ["1H"; "Pass"; "Pass"; "Pass"];
              current_position := 4; dealer := DEALER_EAST;
              auction_started := true |} in
  let bytes := replicate 8 "x"%char in
  IsAuctionComplete (auction h) = Some true
  ∧ 1 <= 8
  ∧ ∃ env',
      epbot_get_next_bid (Some h) (Some bytes) 8 env0
      = Normal (EPBOT_ERR_AUCTION_COMPLETE, Some bytes) (Some h, env')
      ∧ engine_calls env' = engine_calls env0
      ∧ g_last_error env' = "Auction is complete".
Proof.
  intros h bytes.
  split; [reflexivity|].
  split; [lia|].
  apply (epbot_get_next_bid_auction_complete h bytes 8 env0);
    [reflexivity|lia].
Defined.

(** The bid is recorded before the buffer is looked at: when the engine
    answers and its bid does not fit, the call fails with
    [EPBOT_ERR_OUT_OF_MEMORY] after the sequence has grown and the cursor
    has advanced.  The buffer itself is not written. *)
Lemma epbot_get_next_bid_small_buffer
    {Engine} `{!EPBot Engine} (h : EPBotHandle Engine)
    (bytes : list ascii) (buffer_size : Z) (env : Env)
    (e1 e2 : Engine) (managed : option string) :
  IsAuctionComplete (auction h) = Some false →
  1 <= buffer_size →
  invoke (instance h) (set_Position (GetCurrentBidderPosition h))
    = (e1, Value None) →
  invoke e1 get_bid = (e2, Value managed) →
  let bid := if StdString.empty (ManagedToStd managed) then "Pass"
             else ManagedToStd managed in
  buffer_size <= int_of_size (String.length bid) →
  epbot_get_next_bid (Some h) (Some bytes) buffer_size env
  = Normal (EPBOT_ERR_OUT_OF_MEMORY, Some bytes)
      (Some {| instance := e2; auction := auction h ++ [bid];
               current_position := wrap32 (current_position h + 1);
               dealer := dealer h; auction_started := true |},
       {| g_last_error := "Buffer too small";
          engine_calls :=
            engine_calls env
            ++ [set_Position (GetCurrentBidderPosition h); get_bid] |}).
Proof.
  intros Hopen Hsize Hpos Hbid bid Hsmall.
  unfold epbot_get_next_bid.
  destruct (Z.ltb_spec buffer_size 1); [lia|].
  run_body. rewrite Hopen. simpl.
  unfold engine at 1. simpl. rewrite Hpos. simpl.
  unfold engine at 1. simpl. rewrite Hbid. simpl.
  fold bid.
  destruct (Z.geb_spec (int_of_size (String.length bid)) buffer_size) as [_|];
    [|lia].
  unfold with_call. simpl. rewrite <- app_assoc. reflexivity.
Qed.

(** C4 fails on the code.  On a fresh instance whose engine recommends
    "1NT", a call with a 3-byte buffer returns [EPBOT_ERR_OUT_OF_MEMORY]
    with the buffer untouched, but the bid has been appended, the cursor
    advanced and the started flag set. *)
Theorem epbot_get_next_bid_undersized_buffer_mutates :
  let h := created {| script := ["1NT"]; failing := [] |} in
  let bytes := replicate 3 "x"%char in
  ∃ h' env',
    epbot_get_next_bid (Some h) (Some bytes) 3 env0
    = Normal (EPBOT_ERR_OUT_OF_MEMORY, Some bytes) (Some h', env')
    ∧ auction h = [] ∧ auction h' = ["1NT"]
    ∧ current_position h = 0 ∧ current_position h' = 1
    ∧ auction_started h = false ∧ auction_started h' = true.
Proof.
  intros h bytes. eexists _, _.
  split; [vm_compute; reflexivity|].
  repeat split.
Qed.

(** ** [epbot_get_bid] and [epbot_set_bid] *)

(** [epbot_get_bid] checks the index against both ends before it reads:
    outside the sequence it fails with [EPBOT_ERR_BIDDING_FAILED] and
    nothing changes but the error message. *)
Lemma epbot_get_bid_out_of_range
    {Engine} `{!EPBot Engine} (h : EPBotHandle Engine) (bid_index : Z)
    (bytes : list ascii) (buffer_size : Z) (env : Env) :
  1 <= buffer_size →
  bid_index < 0 ∨ Z.of_nat (length (auction h)) <= bid_index →
  epbot_get_bid (Some h) bid_index (Some bytes) buffer_size env
  = Normal (EPBOT_ERR_BIDDING_FAILED, Some bytes)
      (Some h, with_last_error "Bid index out of range" env).
Proof.
  intros Hsize Hout. unfold epbot_get_bid.
  destruct (Z.ltb_spec buffer_size 1); [lia|].
  run_body.
  assert ((bid_index <? 0)
          || (bid_index >=? int_of_size (length (auction h))) = true) as ->.
  { apply orb_true_iff. destruct Hout as [Hneg|Hbig].
    - left. apply Z.ltb_lt, Hneg.
    - right. apply Z.geb_le. unfold int_of_size.
      pose proof (wrap32_le (Z.of_nat (length (auction h)))). lia. }
  reflexivity.
Qed.

Lemma with_auction_twice {Engine} (a b : list string) (h : EPBotHandle Engine) :
  with_auction a (with_auction b h) = with_auction a h.
Proof. reflexivity. Qed.

Lemma with_auction_same {Engine} (h : EPBotHandle Engine) :
  with_auction (auction h) h = h.
Proof. destruct h; reflexivity. Qed.

(** The growing loop, given fuel for its iterations: it appends empty
    tokens until the index is inside. *)
Lemma extend_auction_grows
    {Engine} `{!EPBot Engine} (fuel : nat) (bid_index : Z)
    (h : EPBotHandle Engine) (env : Env) :
  Z.of_nat (length (auction h)) <= INT_MAX →
  bid_index < INT_MAX →
  (Z.to_nat (bid_index + 1) - length (auction h) ≤ fuel)%nat →
  extend_auction fuel bid_index (h, env)
  = Normal ()
      (with_auction
         (auction h
          ++ replicate (Z.to_nat (bid_index + 1) - length (auction h)) "") h,
       env).
Proof.
  revert h. induction fuel as [|fuel IH]; intros h Hlen Hidx Hfuel.
  - simpl. run_body. rewrite int_of_size_small by assumption.
    destruct (Z.leb_spec (Z.of_nat (length (auction h))) bid_index); [lia|].
    replace (Z.to_nat (bid_index + 1) - length (auction h))%nat with 0%nat
      by lia.
    simpl. rewrite app_nil_r, with_auction_same. reflexivity.
  - simpl. run_body. rewrite int_of_size_small by assumption.
    destruct (Z.leb_spec (Z.of_nat (length (auction h))) bid_index).
    + rewrite IH; simpl; rewrite ?length_app; simpl; try lia.
      f_equal. f_equal.
      replace (Z.to_nat (bid_index + 1) - length (auction h))%nat
        with (S (Z.to_nat (bid_index + 1) - (length (auction h) + 1)))
        by lia.
      simpl. rewrite <- app_assoc. reflexivity.
    + replace (Z.to_nat (bid_index + 1) - length (auction h))%nat with 0%nat
        by lia.
      simpl. rewrite app_nil_r, with_auction_same. reflexivity.
Qed.

(** [epbot_set_bid] has no check of the lower end: with a negative index
    the loop does nothing and the assignment lands outside the vector. *)
Lemma epbot_set_bid_negative
    {Engine} `{!EPBot Engine} (fuel : nat) (h : EPBotHandle Engine)
    (bid_index : Z) (bid : string) (env : Env) :
  Z.of_nat (length (auction h)) <= INT_MAX →
  bid_index < 0 →
  epbot_set_bid fuel (Some h) bid_index (Some bid) env = Undefined.
Proof.
  intros Hlen Hneg. unfold epbot_set_bid, exported, try_catch.
  unfold mbind at 1, body_bind at 1.
  rewrite extend_auction_grows; [|assumption|unfold INT_MAX; lia|lia].
  replace (Z.to_nat (bid_index + 1)) with 0%nat by lia. simpl.
  rewrite app_nil_r.
  run_body. unfold store.
  destruct (Z.leb_spec 0 bid_index); [lia|]. reflexivity.
Qed.

(** C5 fails on the code.  [epbot_set_bid] with index -1 on a fresh
    instance does not return an error: the code assigns to [auction[-1]],
    an access outside the (empty) vector.  [epbot_get_bid], the sibling,
    rejects the same index. *)
Theorem epbot_set_bid_minus_one_unchecked (fuel : nat) :
  let h := created {| script := []; failing := [] |} in
  epbot_set_bid fuel (Some h) (-1) (Some "1H") env0 = Undefined
  ∧ epbot_get_bid (Some h) (-1) (Some (replicate 8 "x"%char)) 8 env0
    = Normal (EPBOT_ERR_BIDDING_FAILED, Some (replicate 8 "x"%char))
        (Some h, with_last_error "Bid index out of range" env0).
Proof.
  intros h. split.
  - apply epbot_set_bid_negative; [unfold INT_MAX; simpl; lia|lia].
  - reflexivity.
Qed.

(** ** [epbot_clear_auction] *)

(** C9. [epbot_clear_auction] returns [EPBOT_OK] with the bid sequence
    empty, the cursor 0 and the started flag false; the dealer and the
    engine object are the same, no access to the engine is made, and the
    environment is unchanged. *)
Theorem epbot_clear_auction_resets
    {Engine} `{!EPBot Engine} (h : EPBotHandle Engine) (env : Env) :
  epbot_clear_auction (Some h) env
  = Normal EPBOT_OK
      (Some {| instance := instance h; auction := [];
               current_position := 0; dealer := dealer h;
               auction_started := false |},
       env).
Proof. destruct env; reflexivity. Qed.

(** ** Convention configuration *)

(** C10. The [side] argument is never read: for every instance, key and
    value, [epbot_set_convention] with two different sides returns the
    same code and leaves the same instance, engine trace and error
    message; so does [epbot_load_conventions]. *)
Theorem epbot_set_convention_ignores_side
    {Engine} `{!EPBot Engine} (handle : option (EPBotHandle Engine))
    (key : option string) (value side1 side2 : Z) (env : Env)
    (fs : FileSystem) (order : Traversal) (file_path : option string) :
  epbot_set_convention handle key value side1 env
  = epbot_set_convention handle key value side2 env
  ∧ epbot_load_conventions fs order handle file_path side1 env
    = epbot_load_conventions fs order handle file_path side2 env.
Proof. split; reflexivity. Qed.

(** The state [epbot_set_bid] leaves for an index from 0 on, in closed
    form. *)
Lemma epbot_set_bid_closed
    {Engine} `{!EPBot Engine} (fuel : nat) (h : EPBotHandle Engine)
    (bid_index : Z) (bid : string) (env : Env) :
  0 <= bid_index < INT_MAX →
  Z.of_nat (length (auction h)) <= INT_MAX →
  (Z.to_nat (bid_index + 1) - length (auction h) ≤ fuel)%nat →
  epbot_set_bid fuel (Some h) bid_index (Some bid) env
  = Normal
      match (invoke (instance h) (set_bid bid)).2 with
      | Value _ => EPBOT_OK
      | Exception _ => EPBOT_ERR_BIDDING_FAILED
      end
      (Some {| instance := (invoke (instance h) (set_bid bid)).1;
               auction :=
                 <[Z.to_nat bid_index := bid]>
                   (auction h
                    ++ replicate
                         (Z.to_nat (bid_index + 1) - length (auction h)) "");
               current_position := current_position h;
               dealer := dealer h;
               auction_started := auction_started h |},
       match (invoke (instance h) (set_bid bid)).2 with
       | Value _ => with_call (set_bid bid) env
       | Exception msg => with_last_error msg (with_call (set_bid bid) env)
       end).
Proof.
  intros Hidx Hlen Hfuel. unfold epbot_set_bid, exported, try_catch.
  unfold mbind at 1, body_bind at 1.
  rewrite extend_auction_grows; [|assumption|lia|assumption].
  run_body. unfold store.
  rewrite length_app, length_replicate.
  destruct (Z.leb_spec 0 bid_index); [|lia].
  destruct (Z.ltb_spec bid_index
              (Z.of_nat (length (auction h)
                         + (Z.to_nat (bid_index + 1) - length (auction h)))));
    [|lia].
  simpl. unfold engine. simpl.
  destruct (invoke (instance h) (set_bid bid)) as [e [v|msg]]; reflexivity.
Qed.

(** C8. [epbot_set_bid] at an index [i] from 0 on (given fuel for the
    iterations of its loop) returns, having written the token at index
    [i]: the sequence is at least as long as before and exactly long
    enough to hold index [i]; entries below the old length other than [i]
    are kept; entries from the old length up to [i] are empty tokens; the
    cursor, the dealer and the started flag are unchanged. *)
Theorem epbot_set_bid_writes_at_index
    {Engine} `{!EPBot Engine} (fuel : nat) (h : EPBotHandle Engine)
    (i : Z) (bid : string) (env : Env) :
  0 <= i < INT_MAX →
  Z.of_nat (length (auction h)) <= INT_MAX →
  (Z.to_nat (i + 1) - length (auction h) ≤ fuel)%nat →
  ∃ code h' env',
    epbot_set_bid fuel (Some h) i (Some bid) env
    = Normal code (Some h', env')
    ∧ auction h' !! Z.to_nat i = Some bid
    ∧ length (auction h') = (length (auction h) `max` Z.to_nat (i + 1))%nat
    ∧ (∀ j, j ≠ Z.to_nat i → (j < length (auction h))%nat →
         auction h' !! j = auction h !! j)
    ∧ (∀ j, (length (auction h) ≤ j < Z.to_nat i)%nat →
         auction h' !! j = Some "")
    ∧ current_position h' = current_position h
    ∧ dealer h' = dealer h
    ∧ auction_started h' = auction_started h.
Proof.
  intros Hi Hlen Hfuel.
  eexists _, _, _.
  split; [apply epbot_set_bid_closed; assumption|].
  simpl.
  set (gap := (Z.to_nat (i + 1) - length (auction h))%nat).
  assert (Z.to_nat i < length (auction h ++ replicate gap ""))%nat as Hin.
  { rewrite length_app, length_replicate. unfold gap. lia. }
  split; [apply list_lookup_insert_eq, Hin|].
  split.
  { rewrite length_insert, length_app, length_replicate. unfold gap. lia. }
  split.
  { intros j Hne Hj.
    rewrite list_lookup_insert_ne by congruence.
    apply lookup_app_l, Hj. }
  split.
  { intros j [Hlo Hhi].
    rewrite list_lookup_insert_ne by lia.
    rewrite lookup_app_r by lia.
    apply lookup_replicate_2. unfold gap. lia. }
  repeat split.
Qed.

Lemma epbot_set_bid_writes_at_index_witness :
  let h := created {| script := []; failing := [] |} in
  (0 <= 5 < INT_MAX
   ∧ Z.of_nat (length (auction h)) <= INT_MAX
   ∧ (Z.to_nat (5 + 1) - length (auction h) ≤ 6)%nat)
  ∧ ∃ code h' env',
      epbot_set_bid 6 (Some h) 5 (Some "2C") env0
      = Normal code (Some h', env')
      ∧ auction h' !! Z.to_nat 5 = Some "2C"
      ∧ length (auction h') = (length (auction h) `max` Z.to_nat (5 + 1))%nat
      ∧ (∀ j, j ≠ Z.to_nat 5 → (j < length (auction h))%nat →
           auction h' !! j = auction h !! j)
      ∧ (∀ j, (length (auction h) ≤ j < Z.to_nat 5)%nat →
           auction h' !! j = Some "")
      ∧ current_position h' = current_position h
      ∧ dealer h' = dealer h
      ∧ auction_started h' = auction_started h.
Proof.
  intros h.
  assert (0 <= 5 < INT_MAX) as H1 by (unfold INT_MAX; lia).
  assert (Z.of_nat (length (auction h)) <= INT_MAX) as H2
    by (unfold INT_MAX; simpl; lia).
  assert (Z.to_nat (5 + 1) - length (auction h) ≤ 6)%nat as H3
    by (simpl; lia).
  split; [auto|].
  exact (epbot_set_bid_writes_at_index 6 h 5 "2C" env0 H1 H2 H3).
Defined.

(** The example of the specification: [epbot_set_bid(5, "2C")] on an empty
    auction gives six entries, five empty tokens and then "2C", with the
    cursor still 0. *)
Example epbot_set_bid_5_2C :
  epbot_set_bid 6 (Some (created {| script := []; failing := [] |})) 5
    (Some "2C") env0
  = Normal EPBOT_OK
      (Some {| instance := {| script := []; failing := [] |};
               auction := [""; ""; ""; ""; ""; "2C"];
               current_position := 0; dealer := DEALER_NORTH;
               auction_started := false |},
       {| g_last_error := ""; engine_calls := [set_bid "2C"] |}).
Proof. vm_compute. reflexivity. Qed.

(** ** [epbot_load_conventions] *)

Lemma with_instance_same {Engine} (h : EPBotHandle Engine) :
  with_instance (instance h) h = h.
Proof. destruct h; reflexivity. Qed.

Lemma with_instance_twice {Engine} (e1 e2 : Engine) (h : EPBotHandle Engine) :
  with_instance e1 (with_instance e2 h) = with_instance e1 h.
Proof. reflexivity. Qed.

(** One iteration of the loop of [epbot_load_conventions]: at most one
    engine access, and an exception of the engine is swallowed. *)
Lemma set_convention_iteration
    {Engine} `{!EPBot Engine} (key : string) (value side : Z)
    (h : EPBotHandle Engine) (env : Env) :
  ∃ env',
    try_catch_all (set_convention_rest (Some key) value side;; mret ()) (h, env)
    = Normal ()
        (with_instance
           (run_calls (instance h) (option_list (convention_call (key, value))))
           h,
         env')
    ∧ engine_calls env'
      = engine_calls env ++ option_list (convention_call (key, value)).
Proof.
  unfold set_convention_rest, convention_call. simpl. run_body.
  destruct (property_of_key (c_str key)) as [property|]; simpl.
  - unfold engine. simpl.
    destruct (invoke (instance h) (set_convention property value))
      as [e [v|msg]]; simpl; eexists; split; reflexivity.
  - exists env. rewrite with_instance_same, app_nil_r. split; reflexivity.
Qed.

Lemma for_each_cons {Engine A} (x : A) (l : list A)
    (body : A → Body (EPBotHandle Engine * Env) unit)
    (s : EPBotHandle Engine * Env) :
  for_each (x :: l) body s
  = match body x s with
    | Normal _ s' => for_each l body s'
    | Thrown msg s' => Thrown msg s'
    | Undefined => Undefined
    | Exhausted => Exhausted
    end.
Proof. reflexivity. Qed.

(** The loop of [epbot_load_conventions] always runs to its end. *)
Lemma for_each_convention
    {Engine} `{!EPBot Engine} (l : list (string * Z)) (side : Z)
    (h : EPBotHandle Engine) (env : Env) :
  ∃ env',
    for_each l
      (λ '(key, value),
         try_catch_all (set_convention_rest (Some key) value side;; mret ()))
      (h, env)
    = Normal ()
        (with_instance (run_calls (instance h) (omap convention_call l)) h,
         env')
    ∧ engine_calls env' = engine_calls env ++ omap convention_call l.
Proof.
  revert h env. induction l as [|[key value] l IH]; intros h env.
  - exists env. simpl. rewrite app_nil_r, with_instance_same.
    split; reflexivity.
  - rewrite for_each_cons. cbv beta iota.
    destruct (set_convention_iteration key value side h env)
      as (env1 & -> & Hcalls1).
    destruct (IH (with_instance
                    (run_calls (instance h)
                       (option_list (convention_call (key, value)))) h) env1)
      as (env' & -> & Hcalls).
    exists env'. rewrite Hcalls, Hcalls1, <- app_assoc.
    assert (omap convention_call ((key, value) :: l)
            = option_list (convention_call (key, value))
              ++ omap convention_call l) as ->.
    { simpl. destruct (convention_call (key, value)); reflexivity. }
    split; [|reflexivity].
    unfold run_calls. rewrite foldl_app. reflexivity.
Qed.

Lemma bbsa_step_empty (conventions : gmap string Z) (line : string) :
  bbsa_step conventions line = ∅ ↔ conventions = ∅ ∧ bbsa_line line = None.
Proof.
  unfold bbsa_step. destruct (bbsa_line line) as [[key value]|].
  - split.
    + intros Hempty. exfalso. exact (insert_non_empty _ _ _ Hempty).
    + intros [_ ?]. discriminate.
  - split; [auto|intros [? _]; assumption].
Qed.

Lemma foldl_bbsa_step_empty (lines : list string) :
  foldl bbsa_step ∅ lines = ∅ ↔ Forall (λ line, bbsa_line line = None) lines.
Proof.
  induction lines as [|line lines IH] using rev_ind.
  - simpl. split; [constructor|reflexivity].
  - rewrite foldl_app. simpl. rewrite bbsa_step_empty, IH, Forall_app.
    split.
    + intros [Hall Hline]. split; [assumption|]. repeat constructor. assumption.
    + intros [Hall Hline]. split; [assumption|].
      inversion Hline; assumption.
Qed.

(** The parser returns no entry exactly when the file cannot be opened or
    every line of it is skipped. *)
Lemma ParseBbsaFile_empty (fs : FileSystem) (path : string) :
  ParseBbsaFile fs path = ∅
  ↔ fs path = None
    ∨ ∃ content, fs path = Some content
        ∧ Forall (λ line, bbsa_line line = None) (getlines content).
Proof.
  unfold ParseBbsaFile. destruct (fs path) as [content|].
  - rewrite foldl_bbsa_step_empty. split.
    + intros Hall. right. exists content. auto.
    + intros [?|(c & [= <-] & Hall)]; [discriminate|assumption].
  - split; [auto|reflexivity].
Qed.

(** C7. [epbot_load_conventions] on an instance and a path always
    returns; the code is [EPBOT_ERR_INVALID_CONVENTION_FILE] exactly when
    the file cannot be opened or none of its lines is kept, and [EPBOT_OK]
    otherwise.  In the second case every entry of the parsed map is
    visited once, the setter of its property is called if its key is a
    known one (no access for an unknown key), and an exception of the
    engine does not stop the loop or change the code.  Nothing but the
    engine object changes in the instance. *)
Theorem epbot_load_conventions_result
    {Engine} `{!EPBot Engine} (fs : FileSystem) (order : Traversal)
    (h : EPBotHandle Engine) (path : string) (side : Z) (env : Env) :
  let conventions := ParseBbsaFile fs path in
  let calls := omap convention_call (entries order conventions) in
  ∃ code env',
    epbot_load_conventions fs order (Some h) (Some path) side env
    = Normal code
        (Some (with_instance (run_calls (instance h) calls) h), env')
    ∧ (code = EPBOT_ERR_INVALID_CONVENTION_FILE
       ↔ fs path = None
         ∨ ∃ content, fs path = Some content
             ∧ Forall (λ line, bbsa_line line = None) (getlines content))
    ∧ (code = EPBOT_ERR_INVALID_CONVENTION_FILE ∨ code = EPBOT_OK)
    ∧ engine_calls env' = engine_calls env ++ calls
    ∧ (code = EPBOT_ERR_INVALID_CONVENTION_FILE → calls = [])
    ∧ (∀ key value, conventions !! key = Some value ↔
         (key, value) ∈ entries order conventions)
    ∧ NoDup (entries order conventions).
Proof.
  intros conventions calls.
  assert (∀ key value, conventions !! key = Some value ↔
            (key, value) ∈ entries order conventions) as Hvisit.
  { intros key value. rewrite (entries_perm order conventions).
    symmetry. apply elem_of_map_to_list. }
  assert (NoDup (entries order conventions)) as Hnodup.
  { rewrite (entries_perm order conventions). apply NoDup_map_to_list. }
  pose proof (ParseBbsaFile_empty fs path) as Hparse. fold conventions in Hparse.
  unfold epbot_load_conventions, exported, try_catch.
  fold conventions.
  destruct (bool_decide_reflect (conventions = ∅)) as [Hempty|Hsome].
  - assert (entries order conventions = []) as Hnone.
    { apply Permutation_nil_r. rewrite (entries_perm order conventions), Hempty.
      rewrite map_to_list_empty. reflexivity. }
    exists EPBOT_ERR_INVALID_CONVENTION_FILE,
      (with_last_error "Failed to parse convention file or file is empty" env).
    unfold calls. rewrite Hnone. simpl.
    rewrite with_instance_same, app_nil_r.
    split; [reflexivity|]. split; [rewrite <- Hparse; tauto|]. split; [auto|].
    split; [reflexivity|]. split; [reflexivity|].
    split; [|rewrite <- Hnone; assumption].
    intros key value. rewrite <- Hnone. apply Hvisit.
  - unfold mbind at 1, body_bind at 1.
    destruct (for_each_convention (entries order conventions) side h env)
      as (env' & -> & Hcalls).
    exists EPBOT_OK, env'.
    split; [reflexivity|].
    split; [rewrite <- Hparse; split; [discriminate|contradiction]|].
    split; [auto|]. split; [assumption|].
    split; [discriminate|]. split; assumption.
Qed.

(** ** The convention-file reader *)

Lemma substring_list (n m : nat) (s : string) :
  list_ascii_of_string (String.substring n m s)
  = take m (drop n (list_ascii_of_string s)).
Proof.
  revert n m. induction s as [|c s IH]; intros [|n] [|m]; simpl;
    try reflexivity.
  - rewrite IH. reflexivity.
  - rewrite IH. reflexivity.
  - rewrite IH. reflexivity.
Qed.

Lemma find_first_not_of_None set s :
  StdString.find_first_not_of set s = None →
  Forall (λ c, StdString.mem c set = true) (list_ascii_of_string s).
Proof.
  induction s as [|c s IH]; simpl; intros Hnone; [constructor|].
  destruct (StdString.mem c set) eqn:Hc; [|discriminate].
  constructor; [assumption|]. apply IH.
  destruct (StdString.find_first_not_of set s); [discriminate|reflexivity].
Qed.

Lemma find_first_not_of_Some set s i :
  StdString.find_first_not_of set s = Some i →
  Forall (λ c, StdString.mem c set = true) (take i (list_ascii_of_string s))
  ∧ ∃ c, list_ascii_of_string s !! i = Some c ∧ StdString.mem c set = false.
Proof.
  revert i. induction s as [|c s IH]; simpl; intros i Hsome; [discriminate|].
  destruct (StdString.mem c set) eqn:Hc.
  - destruct (StdString.find_first_not_of set s) as [k|]; [|discriminate].
    injection Hsome as <-. destruct (IH k eq_refl) as [Hpre Hat].
    split; [simpl; constructor; assumption|exact Hat].
  - injection Hsome as <-. split; [constructor|]. exists c. auto.
Qed.

Lemma find_last_not_of_None set s :
  StdString.find_last_not_of set s = None →
  Forall (λ c, StdString.mem c set = true) (list_ascii_of_string s).
Proof.
  induction s as [|c s IH]; simpl; intros Hnone; [constructor|].
  destruct (StdString.find_last_not_of set s); [discriminate|].
  destruct (StdString.mem c set) eqn:Hc; [|discriminate].
  constructor; [assumption|apply IH; reflexivity].
Qed.

Lemma find_last_not_of_Some set s j :
  StdString.find_last_not_of set s = Some j →
  Forall (λ c, StdString.mem c set = true)
    (drop (S j) (list_ascii_of_string s))
  ∧ ∃ c, list_ascii_of_string s !! j = Some c ∧ StdString.mem c set = false.
Proof.
  revert j. induction s as [|c s IH]; simpl; intros j Hsome; [discriminate|].
  destruct (StdString.find_last_not_of set s) as [k|] eqn:Hrest.
  - injection Hsome as <-. exact (IH k eq_refl).
  - destruct (StdString.mem c set) eqn:Hc; [discriminate|].
    injection Hsome as <-. split.
    + simpl. apply find_last_not_of_None, Hrest.
    + exists c. auto.
Qed.

Lemma mem_blank c :
  StdString.mem c (String " " (String "009" EmptyString)) = true ↔ blank c.
Proof.
  unfold blank. simpl.
  rewrite orb_false_r, orb_true_iff, !Ascii.eqb_eq. reflexivity.
Qed.

Lemma Forall_mem_blank l :
  Forall (λ c, StdString.mem c (String " " (String "009" EmptyString)) = true) l
  ↔ Forall blank l.
Proof. apply Forall_iff. intros c. apply mem_blank. Qed.

(** [trim_key] removes the blanks around a key that has some other
    character, and nothing else. *)
Lemma trim_key_Trimmed raw : Trimmed raw (trim_key raw).
Proof.
  unfold Trimmed, trim_key.
  set (set := String " " (String "009" EmptyString)).
  destruct (StdString.find_first_not_of set raw) as [i|] eqn:Hfirst.
  2: { left. split; [|reflexivity].
       apply Forall_mem_blank, find_first_not_of_None, Hfirst. }
  destruct (StdString.find_last_not_of set raw) as [j|] eqn:Hlast.
  2: { left. split; [|reflexivity].
       apply Forall_mem_blank, find_last_not_of_None, Hlast. }
  right.
  destruct (find_first_not_of_Some _ _ _ Hfirst) as (Hpre & ci & Hi & Hci).
  destruct (find_last_not_of_Some _ _ _ Hlast) as (Hpost & cj & Hj & Hcj).
  set (l := list_ascii_of_string raw) in *.
  assert (i ≤ j)%nat as Hij.
  { destruct (Nat.le_gt_cases i j) as [|Hlt]; [assumption|exfalso].
    rewrite Forall_lookup in Hpre.
    assert (take i l !! j = Some cj) as Htake
      by (rewrite lookup_take_lt by assumption; exact Hj).
    specialize (Hpre j cj Htake). cbv beta in Hpre. congruence. }
  unfold StdString.substr. rewrite substring_list. fold l.
  exists (take i l), (drop (S j) l).
  split; [|split; [|split; [|split]]].
  - rewrite <- (take_drop i l) at 1. f_equal.
    rewrite <- (take_drop (j - i + 1) (drop i l)) at 1. f_equal.
    rewrite drop_drop. f_equal. lia.
  - apply Forall_mem_blank, Hpre.
  - apply Forall_mem_blank, Hpost.
  - exists ci. split.
    + rewrite head_lookup, lookup_take_lt by lia.
      rewrite lookup_drop, Nat.add_0_r. exact Hi.
    + rewrite <- mem_blank. fold set. congruence.
  - exists cj. split.
    + rewrite last_lookup.
      assert (j < length l)%nat by (apply lookup_lt_Some in Hj; exact Hj).
      rewrite length_take, length_drop.
      replace (Nat.pred ((j - i + 1) `min` (length l - i)))%nat
        with (j - i)%nat by lia.
      rewrite lookup_take_lt by lia.
      rewrite lookup_drop. replace (i + (j - i))%nat with j by lia. exact Hj.
    + rewrite <- mem_blank. fold set. congruence.
Qed.

Lemma foldl_bbsa_step_entries (conventions : gmap string Z) (lines : list string) :
  foldl bbsa_step conventions lines
  = foldr (λ entry, <[entry.1 := entry.2]>) conventions
      (reverse (omap bbsa_line lines)).
Proof.
  revert conventions. induction lines as [|line lines IH]; intros conventions.
  - reflexivity.
  - simpl. rewrite IH. unfold bbsa_step.
    destruct (bbsa_line line) as [[key value]|]; [|reflexivity].
    rewrite reverse_cons, foldr_app. reflexivity.
Qed.

(** The map the parser returns holds the entries of the kept lines, a
    later line of a key replacing an earlier one. *)
Lemma ParseBbsaFile_entries (fs : FileSystem) (path content : string) :
  fs path = Some content →
  ParseBbsaFile fs path
  = list_to_map (reverse (omap bbsa_line (getlines content))).
Proof.
  intros Hopen. unfold ParseBbsaFile. rewrite Hopen.
  apply foldl_bbsa_step_entries.
Qed.

Lemma bbsa_line_kept line key value :
  bbsa_line line = Some (key, value) →
  ∃ eq_pos,
    StdString.find "="%char (without_cr line) = Some eq_pos
    ∧ key = trim_key (StdString.substr (without_cr line) 0 eq_pos)
    ∧ stoi (trim_value (StdString.substr_from (without_cr line) (eq_pos + 1)))
      = Some value.
Proof.
  unfold bbsa_line.
  destruct (StdString.empty line
            || bool_decide (StdString.front line = Some "#"%char)
            || bool_decide (StdString.front line = Some ";"%char));
    [discriminate|].
  destruct (StdString.find "="%char (without_cr line)) as [eq_pos|];
    [|discriminate].
  destruct (stoi _) as [v|] eqn:Hvalue; [|discriminate].
  intros [= <- <-]. exists eq_pos. auto.
Qed.

Example getlines_example_file : getlines example_file = example_lines.
Proof. reflexivity. Qed.

(** C6, as the code has it.  Skipped: the empty line, a line whose first
    character is '#' or ';', a line without '=', and a line whose value
    [std::stoi] rejects.  Every other line is kept: its key is the text
    before the first '=' without the blanks around it (left as it is when
    it is empty or all blanks), its value is what [std::stoi] reads in the
    text after that '='.  The map holds the kept entries, the last line
    of a key winning, and the example file parses to exactly
    [Stayman = 1]. *)
Theorem ParseBbsaFile_line_rules :
  (∀ line,
     line = "" ∨ StdString.front line = Some "#"%char
     ∨ StdString.front line = Some ";"%char →
     bbsa_line line = None)
  ∧ (∀ line,
       StdString.find "="%char (without_cr line) = None →
       bbsa_line line = None)
  ∧ (∀ line eq_pos,
       StdString.find "="%char (without_cr line) = Some eq_pos →
       stoi (trim_value (StdString.substr_from (without_cr line) (eq_pos + 1)))
       = None →
       bbsa_line line = None)
  ∧ (∀ line eq_pos value,
       line ≠ "" → StdString.front line ≠ Some "#"%char →
       StdString.front line ≠ Some ";"%char →
       StdString.find "="%char (without_cr line) = Some eq_pos →
       stoi (trim_value (StdString.substr_from (without_cr line) (eq_pos + 1)))
       = Some value →
       bbsa_line line
       = Some (trim_key (StdString.substr (without_cr line) 0 eq_pos), value))
  ∧ (∀ raw, Trimmed raw (trim_key raw))
  ∧ (∀ fs path content,
       fs path = Some content →
       ParseBbsaFile fs path
       = list_to_map (reverse (omap bbsa_line (getlines content))))
  ∧ (∀ fs path key value,
       ParseBbsaFile fs path !! key = Some value →
       ∃ content line,
         fs path = Some content ∧ line ∈ getlines content
         ∧ bbsa_line line = Some (key, value))
  ∧ (∀ fs path,
       fs path = Some example_file →
       ParseBbsaFile fs path = {[ "Stayman" := 1 ]}).
Proof.
  split; [|split; [|split; [|split; [|split; [|split; [|split]]]]]].
  - intros line [->|[Hfront|Hfront]]; [reflexivity| |];
      unfold bbsa_line; rewrite Hfront; simpl.
    + rewrite orb_true_r. reflexivity.
    + rewrite orb_true_r. reflexivity.
  - intros line Hfind. unfold bbsa_line. rewrite Hfind.
    destruct (_ || _ || _); reflexivity.
  - intros line eq_pos Hfind Hvalue. unfold bbsa_line.
    rewrite Hfind, Hvalue. destruct (_ || _ || _); reflexivity.
  - intros line eq_pos value Hne Hhash Hsemi Hfind Hvalue. unfold bbsa_line.
    rewrite Hfind, Hvalue.
    rewrite !bool_decide_eq_false_2 by assumption.
    destruct line; [contradiction|reflexivity].
  - apply trim_key_Trimmed.
  - apply ParseBbsaFile_entries.
  - intros fs path key value Hlookup.
    unfold ParseBbsaFile in Hlookup.
    destruct (fs path) as [content|] eqn:Hopen;
      [|rewrite lookup_empty in Hlookup; discriminate].
    rewrite foldl_bbsa_step_entries in Hlookup.
    apply (elem_of_list_to_map_2 (M := gmap string)) in Hlookup.
    rewrite elem_of_reverse, list_elem_of_omap in Hlookup.
    destruct Hlookup as (line & Hin & Hline).
    exists content, line. auto.
  - intros fs path Hopen. unfold ParseBbsaFile. rewrite Hopen.
    vm_compute. reflexivity.
Qed.

(** C6, as stated, fails: the line "=5" has an empty key and is kept,
    under the empty key; the line " = 5" has a blank key and is kept,
    under that blank. *)
Lemma ParseBbsaFile_empty_key_kept :
  bbsa_line "=5" = Some ("", 5)
  ∧ bbsa_line " = 5" = Some (" ", 5)
  ∧ ParseBbsaFile (λ _, Some "=5") "conventions.bbsa" = {[ "" := 5 ]}.
Proof. repeat split; vm_compute; reflexivity. Qed.

(** What [std::stoi] accepts and rejects, on the values of the example
    and around the limits of [int]. *)
Example stoi_samples :
  stoi "1" = Some 1 ∧ stoi "notanumber" = None ∧ stoi "" = None
  ∧ stoi " -12abc" = Some (-12) ∧ stoi "+7" = Some 7 ∧ stoi "-" = None
  ∧ stoi "2147483647" = Some INT_MAX ∧ stoi "2147483648" = None
  ∧ stoi "-2147483648" = Some INT_MIN ∧ stoi "-2147483649" = None.
Proof. repeat split; vm_compute; reflexivity. Qed.

(** Loading the example file applies its one entry; a file whose lines
    are all skipped is refused although it opens; an engine that throws
    on every convention setter does not change the code. *)
Example epbot_load_conventions_samples :
  let e := {| script := []; failing := [] |} in
  let faulty := {| script := []; failing := [on_convention] |} in
  epbot_load_conventions (λ _, Some example_file) listed (Some (created e))
    (Some "ns.bbsa") SIDE_NS env0
  = Normal EPBOT_OK
      (Some (created e),
       {| g_last_error := ""; engine_calls := [set_convention Stayman 1] |})
  ∧ epbot_load_conventions (λ _, Some "# nothing here") listed
      (Some (created e)) (Some "ns.bbsa") SIDE_NS env0
    = Normal EPBOT_ERR_INVALID_CONVENTION_FILE
        (Some (created e),
         {| g_last_error := "Failed to parse convention file or file is empty";
            engine_calls := [] |})
  ∧ epbot_load_conventions (λ _, None) listed
      (Some (created e)) (Some "ns.bbsa") SIDE_NS env0
    = Normal EPBOT_ERR_INVALID_CONVENTION_FILE
        (Some (created e),
         {| g_last_error := "Failed to parse convention file or file is empty";
            engine_calls := [] |})
  ∧ epbot_load_conventions (λ _, Some example_file) listed
      (Some (created faulty)) (Some "ew.bbsa") SIDE_EW env0
    = Normal EPBOT_OK
        (Some (created faulty),
         {| g_last_error := "engine fault";
            engine_calls := [set_convention Stayman 1] |}).
Proof. repeat split; vm_compute; reflexivity. Qed.

(** ** Limits of the model's hypotheses *)

Lemma wrap32_max z : wrap32 z <= INT_MAX.
Proof.
  unfold wrap32, INT_MAX.
  pose proof (Z.mod_pos_bound (z + 2 ^ 31) (2 ^ 32)). lia.
Qed.

(** With index [INT_MAX] the loop condition of [epbot_set_bid] cannot
    become false: the loop uses up any fuel. *)
Lemma extend_auction_INT_MAX
    {Engine} `{!EPBot Engine} (fuel : nat) (h : EPBotHandle Engine) (env : Env) :
  extend_auction fuel INT_MAX (h, env) = Exhausted.
Proof.
  revert h. induction fuel as [|fuel IH]; intros h; simpl; run_body.
  - destruct (Z.leb_spec (int_of_size (length (auction h))) INT_MAX) as [_|Hgt];
      [reflexivity|].
    pose proof (wrap32_max (Z.of_nat (length (auction h)))).
    unfold int_of_size in Hgt. lia.
  - destruct (Z.leb_spec (int_of_size (length (auction h))) INT_MAX) as [_|Hgt].
    + apply IH.
    + pose proof (wrap32_max (Z.of_nat (length (auction h)))).
      unfold int_of_size in Hgt. lia.
Qed.

(** [epbot_get_bid] never reads outside the sequence: given a buffer of
    the announced size, it returns. *)
Lemma epbot_get_bid_returns
    {Engine} `{!EPBot Engine} (h : EPBotHandle Engine) (bid_index : Z)
    (bytes : list ascii) (buffer_size : Z) (env : Env) :
  buffer_size <= Z.of_nat (length bytes) →
  ∃ code buffer env',
    epbot_get_bid (Some h) bid_index (Some bytes) buffer_size env
    = Normal (code, buffer) (Some h, env').
Proof.
  intros Hroom. unfold epbot_get_bid.
  destruct (Z.ltb_spec buffer_size 1); run_body; [eauto|].
  destruct (Z.ltb_spec bid_index 0); simpl; [eauto|].
  destruct (Z.geb_spec bid_index (int_of_size (length (auction h))))
    as [|Hlt]; simpl; [eauto|].
  assert (Z.to_nat bid_index < length (auction h))%nat as Hin.
  { pose proof (wrap32_le (Z.of_nat (length (auction h)))).
    unfold int_of_size in Hlt. lia. }
  unfold load. destruct (Z.leb_spec 0 bid_index); [|lia].
  destruct (lookup_lt_is_Some_2 _ _ Hin) as [bid ->]. simpl.
  destruct (int_of_size (String.length bid) >=? buffer_size); simpl; [eauto|].
  unfold strncpy.
  destruct (Nat.leb_spec (Z.to_nat (buffer_size - 1)) (length bytes)); [|lia].
  simpl. unfold store.
  destruct (Z.leb_spec 0 (buffer_size - 1)); [|lia]. simpl.
  match goal with |- context [?a <? ?b] => destruct (Z.ltb_spec a b) as [|Hshort] end.
  - simpl. eauto.
  - exfalso. revert Hshort.
    rewrite length_app, length_take, length_drop, length_app,
      length_replicate.
    lia.
Qed.

(** * Further properties of the wrapper *)

(** ** Hand setup *)

(** [epbot_set_deal] starts a fresh auction exactly when the engine
    accepts the deal: it hands the deal to the engine once; on a value it
    returns [EPBOT_OK] with the sequence empty, the cursor 0 and the
    started flag false; on an exception it returns
    [EPBOT_ERR_INVALID_HAND] with the message recorded and the sequence,
    cursor and started flag as they were.  The dealer is kept either
    way. *)
Theorem epbot_set_deal_outcomes
    {Engine} `{!EPBot Engine} (h : EPBotHandle Engine) (pbn : string)
    (env : Env) :
  ∃ code h' env',
    epbot_set_deal (Some h) (Some pbn) env = Normal code (Some h', env')
    ∧ instance h' = (invoke (instance h) (set_HAND pbn)).1
    ∧ dealer h' = dealer h
    ∧ engine_calls env' = engine_calls env ++ [set_HAND pbn]
    ∧ match (invoke (instance h) (set_HAND pbn)).2 with
      | Value _ =>
          code = EPBOT_OK ∧ auction h' = [] ∧ current_position h' = 0
          ∧ auction_started h' = false
          ∧ g_last_error env' = g_last_error env
      | Exception msg =>
          code = EPBOT_ERR_INVALID_HAND ∧ auction h' = auction h
          ∧ current_position h' = current_position h
          ∧ auction_started h' = auction_started h
          ∧ g_last_error env' = msg
      end.
Proof.
  unfold epbot_set_deal. run_body. unfold engine. simpl.
  destruct (invoke (instance h) (set_HAND pbn)) as [e [v|msg]]; simpl;
    eexists _, _, _; (split; [reflexivity|]); simpl; repeat split.
Qed.

(** [epbot_set_dealer] refuses a dealer outside North..West before it
    touches anything: [EPBOT_ERR_INVALID_DEALER], the instance as it was,
    no access to the engine. *)
Theorem epbot_set_dealer_out_of_range
    {Engine} `{!EPBot Engine} (h : EPBotHandle Engine) (d : Z) (env : Env) :
  d < DEALER_NORTH ∨ DEALER_WEST < d →
  epbot_set_dealer (Some h) d env
  = Normal EPBOT_ERR_INVALID_DEALER
      (Some h, with_last_error "Invalid dealer position" env).
Proof.
  intros Hout. unfold epbot_set_dealer. run_body.
  assert ((d <? DEALER_NORTH) || (d >? DEALER_WEST) = true) as ->.
  { apply orb_true_iff. destruct Hout; [left|right]; lia. }
  reflexivity.
Qed.

Lemma epbot_set_dealer_out_of_range_witness :
  (4 < DEALER_NORTH ∨ DEALER_WEST < 4)
  ∧ epbot_set_dealer (Some (created {| script := []; failing := [] |})) 4 env0
    = Normal EPBOT_ERR_INVALID_DEALER
        (Some (created {| script := []; failing := [] |}),
         with_last_error "Invalid dealer position" env0).
Proof.
  split; [right; unfold DEALER_WEST; lia|].
  apply (epbot_set_dealer_out_of_range
           (created {| script := []; failing := [] |}) 4 env0).
  right. unfold DEALER_WEST. lia.
Defined.

Lemma GetCurrentBidderPosition_seat {Engine} (h : EPBotHandle Engine) :
  DEALER_NORTH <= dealer h <= DEALER_WEST →
  0 <= current_position h →
  dealer h + current_position h <= INT_MAX →
  GetCurrentBidderPosition h = (dealer h + current_position h) mod 4
  ∧ 0 <= GetCurrentBidderPosition h <= 3.
Proof.
  unfold DEALER_NORTH, DEALER_WEST, GetCurrentBidderPosition.
  intros Hd Hp Hsum.
  rewrite wrap32_small by (unfold INT_MIN; lia).
  rewrite Z.rem_mod_nonneg by lia.
  pose proof (Z.mod_pos_bound (dealer h + current_position h) 4).
  split; [reflexivity|lia].
Qed.

(** [epbot_set_dealer] with a seat North..West always stores it, also
    when the engine then throws ([EPBOT_ERR_INVALID_DEALER] in that
    case); the auction is not cleared.  From then on the current bidder
    is the seat [(dealer + cursor) mod 4], the dealer itself at cursor
    0. *)
Theorem epbot_set_dealer_stores_seat
    {Engine} `{!EPBot Engine} (h : EPBotHandle Engine) (d : Z) (env : Env) :
  DEALER_NORTH <= d <= DEALER_WEST →
  ∃ code h' env',
    epbot_set_dealer (Some h) d env = Normal code (Some h', env')
    ∧ dealer h' = d
    ∧ auction h' = auction h
    ∧ current_position h' = current_position h
    ∧ auction_started h' = auction_started h
    ∧ engine_calls env' = engine_calls env ++ [set_Dealer d]
    ∧ (code = EPBOT_OK
       ↔ ∃ v, (invoke (instance h) (set_Dealer d)).2 = Value v)
    ∧ (code = EPBOT_ERR_INVALID_DEALER
       ↔ ∃ msg, (invoke (instance h) (set_Dealer d)).2 = Exception msg)
    ∧ (current_position h = 0 → GetCurrentBidderPosition h' = d)
    ∧ (0 <= current_position h → d + current_position h <= INT_MAX →
       GetCurrentBidderPosition h' = (d + current_position h) mod 4).
Proof.
  intros Hd. unfold epbot_set_dealer. run_body.
  assert ((d <? DEALER_NORTH) || (d >? DEALER_WEST) = false) as ->.
  { apply orb_false_iff. split; lia. }
  unfold engine. simpl.
  assert (∀ h' : EPBotHandle Engine,
            dealer h' = d → current_position h' = current_position h →
            (current_position h = 0 → GetCurrentBidderPosition h' = d)
            ∧ (0 <= current_position h → d + current_position h <= INT_MAX →
               GetCurrentBidderPosition h' = (d + current_position h) mod 4))
    as Hseat.
  { intros h' Hd' Hp'.
    pose proof (GetCurrentBidderPosition_seat h') as Hs.
    rewrite Hd', Hp' in Hs. unfold DEALER_NORTH, DEALER_WEST in *.
    split.
    - intros H0. rewrite H0 in Hs.
      destruct Hs as [-> _]; [lia|lia|unfold INT_MAX; lia|].
      rewrite Z.add_0_r. apply Z.mod_small. lia.
    - intros Hp Hsum. destruct Hs as [-> _]; [lia|lia|lia|reflexivity]. }
  destruct (invoke (instance h) (set_Dealer d)) as [e [v|msg]]; simpl;
    eexists _, _, _; (split; [reflexivity|]); simpl;
    (split; [reflexivity|]); (split; [reflexivity|]);
    (split; [reflexivity|]); (split; [reflexivity|]);
    (split; [reflexivity|]).
  - split; [split; eauto|].
    split; [split; [discriminate|intros [? ?]; discriminate]|].
    apply Hseat; reflexivity.
  - split; [split; [discriminate|intros [? ?]; discriminate]|].
    split; [split; eauto|].
    apply Hseat; reflexivity.
Qed.

Lemma epbot_set_dealer_stores_seat_witness :
  let h := created {| script := []; failing := [on_Dealer] |} in
  DEALER_NORTH <= DEALER_SOUTH <= DEALER_WEST
  ∧ ∃ code h' env',
      epbot_set_dealer (Some h) DEALER_SOUTH env0 = Normal code (Some h', env')
      ∧ dealer h' = DEALER_SOUTH
      ∧ auction h' = auction h
      ∧ current_position h' = current_position h
      ∧ auction_started h' = auction_started h
      ∧ engine_calls env' = engine_calls env0 ++ [set_Dealer DEALER_SOUTH]
      ∧ (code = EPBOT_OK
         ↔ ∃ v, (invoke (instance h) (set_Dealer DEALER_SOUTH)).2 = Value v)
      ∧ (code = EPBOT_ERR_INVALID_DEALER
         ↔ ∃ msg,
             (invoke (instance h) (set_Dealer DEALER_SOUTH)).2 = Exception msg)
      ∧ (current_position h = 0 → GetCurrentBidderPosition h' = DEALER_SOUTH)
      ∧ (0 <= current_position h →
         DEALER_SOUTH + current_position h <= INT_MAX →
         GetCurrentBidderPosition h'
         = (DEALER_SOUTH + current_position h) mod 4).
Proof.
  intros h.
  assert (DEALER_NORTH <= DEALER_SOUTH <= DEALER_WEST) as Hd
    by (unfold DEALER_NORTH, DEALER_SOUTH, DEALER_WEST; lia).
  split; [exact Hd|].
  exact (epbot_set_dealer_stores_seat h DEALER_SOUTH env0 Hd).
Defined.

(** [epbot_set_vulnerability] keeps no state of its own: a value outside
    None..Both is refused without an access to the engine; a value inside
    costs exactly one access, and the code tells whether the engine
    accepted it.  The tracker (sequence, cursor, dealer, started flag) is
    never changed. *)
Theorem epbot_set_vulnerability_outcomes
    {Engine} `{!EPBot Engine} (h : EPBotHandle Engine) (vul : Z) (env : Env) :
  ∃ code h' env',
    epbot_set_vulnerability (Some h) vul env = Normal code (Some h', env')
    ∧ auction h' = auction h
    ∧ current_position h' = current_position h
    ∧ dealer h' = dealer h
    ∧ auction_started h' = auction_started h
    ∧ (vul < VUL_NONE ∨ VUL_BOTH < vul →
       code = EPBOT_ERR_INVALID_VULNERABILITY ∧ h' = h
       ∧ engine_calls env' = engine_calls env)
    ∧ (VUL_NONE <= vul <= VUL_BOTH →
       instance h' = (invoke (instance h) (set_Vulnerability vul)).1
       ∧ engine_calls env' = engine_calls env ++ [set_Vulnerability vul]
       ∧ (code = EPBOT_OK
          ↔ ∃ v, (invoke (instance h) (set_Vulnerability vul)).2 = Value v)
       ∧ (code = EPBOT_OK ∨ code = EPBOT_ERR_INVALID_VULNERABILITY)).
Proof.
  unfold epbot_set_vulnerability. run_body.
  destruct ((vul <? VUL_NONE) || (vul >? VUL_BOTH)) eqn:Hrange.
  - eexists _, _, _. split; [reflexivity|]. simpl.
    repeat (split; [reflexivity|]).
    apply orb_true_iff in Hrange.
    split; [intros _; repeat split|intros Hin; lia].
  - apply orb_false_iff in Hrange. unfold engine. simpl.
    destruct (invoke (instance h) (set_Vulnerability vul)) as [e [v|msg]];
      simpl; eexists _, _, _; (split; [reflexivity|]); simpl;
      repeat (split; [reflexivity|]);
      (split; [intros Hout; lia|]); intros _;
      repeat (split; [reflexivity|]).
    + split; [split; eauto|auto].
    + split; [split; [discriminate|intros [? ?]; discriminate]|auto].
Qed.

(** ** Copying a bid out *)

Lemma length_chars (s : string) :
  length (list_ascii_of_string s) = String.length s.
Proof. induction s as [|c s IH]; simpl; [reflexivity|]. rewrite IH. reflexivity. Qed.

Lemma c_str_length (s : string) :
  (String.length (c_str s) ≤ String.length s)%nat.
Proof.
  induction s as [|c s IH]; simpl; [lia|].
  destruct (Ascii.eqb c NUL); simpl; lia.
Qed.

(** The two writes that end [epbot_get_next_bid] and [epbot_get_bid], for
    a bid shorter than the announced size of a buffer that really has
    that size: they stay inside the announced bytes. *)
Lemma copy_out_writes (bytes : list ascii) (bid : string) (size : Z) :
  size <= Z.of_nat (length bytes) →
  Z.of_nat (String.length (c_str bid)) < size →
  ∃ bytes1,
    strncpy bytes bid (Z.to_nat (size - 1)) = Some bytes1
    ∧ store bytes1 (size - 1) NUL
      = Some (copied_out bid (Z.to_nat size) bytes).
Proof.
  intros Hroom Hfits. unfold strncpy.
  set (chars := list_ascii_of_string (c_str bid)).
  assert (length chars = String.length (c_str bid)) as Hchars
    by apply length_chars.
  set (n1 := Z.to_nat (size - 1)).
  assert (Z.to_nat size = S n1) as Hn by (unfold n1; lia).
  destruct (Nat.leb_spec n1 (length bytes)); [|lia].
  eexists. split; [reflexivity|].
  rewrite take_app_ge by lia.
  rewrite take_replicate.
  replace ((n1 - length chars) `min` n1)%nat with (n1 - length chars)%nat
    by lia.
  unfold store.
  rewrite !length_app, length_replicate, length_drop.
  destruct (Z.leb_spec 0 (size - 1)); [|lia].
  match goal with
  | |- context [?a <? ?b] => destruct (Z.ltb_spec a b); [|lia]
  end.
  simpl. f_equal. unfold copied_out. fold chars.
  rewrite Hn, <- Hchars.
  assert (is_Some (bytes !! n1)) as [x Hx] by (apply lookup_lt_is_Some_2; lia).
  rewrite (drop_S _ _ _ Hx).
  replace (S n1 - length chars)%nat with (S (n1 - length chars)) by lia.
  rewrite replicate_S_end, <- !app_assoc.
  replace (Z.to_nat (size - 1)) with
    (length (chars ++ replicate (n1 - length chars) NUL) + 0)%nat
    by (rewrite length_app, length_replicate; unfold n1; lia).
  rewrite app_assoc, insert_app_r. simpl. rewrite <- app_assoc. reflexivity.
Qed.

(** ** [epbot_get_next_bid], the other paths *)



Ltac run_body_in H :=
  unfold exported, try_catch, try_catch_all, read, update, SetError, checked,
    exhausted, mbind, body_bind, mret, body_ret in H; simpl in H.

(** What the return code of [epbot_get_next_bid] tells about the
    instance.  [EPBOT_OK]: exactly one non-empty bid was appended, the
    cursor advanced by one, the started flag is set, the error message
    is untouched.  [EPBOT_ERR_AUCTION_COMPLETE] or
    [EPBOT_ERR_BIDDING_FAILED] (the engine threw): sequence, cursor,
    started flag and buffer are as before.  No other code but
    [EPBOT_ERR_OUT_OF_MEMORY] is returned, and the dealer never
    changes. *)
Theorem epbot_get_next_bid_by_code
    {Engine} `{!EPBot Engine} (h h' : EPBotHandle Engine)
    (bytes : list ascii) (buffer_size : Z) (env env' : Env)
    (code : EPBotError) (buffer' : option (list ascii)) :
  epbot_get_next_bid (Some h) (Some bytes) buffer_size env
  = Normal (code, buffer') (Some h', env') →
  dealer h' = dealer h
  ∧ (code = EPBOT_OK →
     ∃ bid, bid ≠ "" ∧ auction h' = auction h ++ [bid]
       ∧ current_position h' = wrap32 (current_position h + 1)
       ∧ auction_started h' = true
       ∧ g_last_error env' = g_last_error env)
  ∧ (code = EPBOT_ERR_AUCTION_COMPLETE ∨ code = EPBOT_ERR_BIDDING_FAILED →
     auction h' = auction h
     ∧ current_position h' = current_position h
     ∧ auction_started h' = auction_started h
     ∧ buffer' = Some bytes)
  ∧ (code = EPBOT_ERR_AUCTION_COMPLETE →
     IsAuctionComplete (auction h) = Some true ∧ h' = h
     ∧ engine_calls env' = engine_calls env)
  ∧ (code = EPBOT_OK ∨ code = EPBOT_ERR_OUT_OF_MEMORY
     ∨ code = EPBOT_ERR_AUCTION_COMPLETE ∨ code = EPBOT_ERR_BIDDING_FAILED).
Proof.
  intros Hrun. unfold epbot_get_next_bid in Hrun.
  destruct (Z.ltb_spec buffer_size 1).
  { run_body_in Hrun. injection Hrun as <- <- <- <-.
    split; [reflexivity|]. split; [discriminate|].
    split; [intros [?|?]; discriminate|]. split; [discriminate|]. auto. }
  run_body_in Hrun.
  destruct (IsAuctionComplete (auction h)) as [[|]|] eqn:Hrule;
    simpl in Hrun; [| |discriminate].
  { injection Hrun as <- <- <- <-.
    split; [reflexivity|]. split; [discriminate|].
    split; [intros _; repeat split|]. split; [intros _; repeat split|]. auto. }
  unfold engine in Hrun. simpl in Hrun.
  destruct (invoke (instance h) (set_Position (GetCurrentBidderPosition h)))
    as [e1 [v1|msg1]]; simpl in Hrun.
  2: { injection Hrun as <- <- <- <-.
       split; [reflexivity|]. split; [discriminate|].
       split; [intros _; repeat split|]. split; [discriminate|]. auto. }
  destruct (invoke e1 get_bid) as [e2 [managed|msg2]]; simpl in Hrun.
  2: { injection Hrun as <- <- <- <-.
       split; [reflexivity|]. split; [discriminate|].
       split; [intros _; repeat split|]. split; [discriminate|]. auto. }
  fold (recorded_bid managed) in Hrun.
  assert (recorded_bid managed ≠ "") as Hbid.
  { unfold recorded_bid. destruct (ManagedToStd managed); simpl; discriminate. }
  destruct (int_of_size (String.length (recorded_bid managed)) >=? buffer_size);
    simpl in Hrun.
  { injection Hrun as <- <- <- <-.
    split; [reflexivity|]. split; [discriminate|].
    split; [intros [?|?]; discriminate|]. split; [discriminate|]. auto. }
  destruct (strncpy bytes (recorded_bid managed) (Z.to_nat (buffer_size - 1)))
    as [bytes1|]; simpl in Hrun; [|discriminate].
  destruct (store bytes1 (buffer_size - 1) NUL) as [bytes2|];
    simpl in Hrun; [|discriminate].
  injection Hrun as <- <- <- <-.
  split; [reflexivity|].
  split; [intros _; exists (recorded_bid managed); repeat split; assumption|].
  split; [intros [?|?]; discriminate|]. split; [discriminate|]. auto.
Qed.

Lemma epbot_get_next_bid_by_code_witness :
  let h := created {| script := []; failing := [on_get_bid] |} in
  let h' := created {| script := []; failing := [on_get_bid] |} in
  let bytes := replicate 8 "x"%char in
  let env' := {| g_last_error := "engine fault";
                 engine_calls := [set_Position 0; get_bid] |} in
  epbot_get_next_bid (Some h) (Some bytes) 8 env0
  = Normal (EPBOT_ERR_BIDDING_FAILED, Some bytes) (Some h', env')
  ∧ dealer h' = dealer h
  ∧ (EPBOT_ERR_BIDDING_FAILED = EPBOT_OK →
     ∃ bid, bid ≠ "" ∧ auction h' = auction h ++ [bid]
       ∧ current_position h' = wrap32 (current_position h + 1)
       ∧ auction_started h' = true
       ∧ g_last_error env' = g_last_error env0)
  ∧ (EPBOT_ERR_BIDDING_FAILED = EPBOT_ERR_AUCTION_COMPLETE
     ∨ EPBOT_ERR_BIDDING_FAILED = EPBOT_ERR_BIDDING_FAILED →
     auction h' = auction h
     ∧ current_position h' = current_position h
     ∧ auction_started h' = auction_started h
     ∧ Some bytes = Some bytes)
  ∧ (EPBOT_ERR_BIDDING_FAILED = EPBOT_ERR_AUCTION_COMPLETE →
     IsAuctionComplete (auction h) = Some true ∧ h' = h
     ∧ engine_calls env' = engine_calls env0)
  ∧ (EPBOT_ERR_BIDDING_FAILED = EPBOT_OK
     ∨ EPBOT_ERR_BIDDING_FAILED = EPBOT_ERR_OUT_OF_MEMORY
     ∨ EPBOT_ERR_BIDDING_FAILED = EPBOT_ERR_AUCTION_COMPLETE
     ∨ EPBOT_ERR_BIDDING_FAILED = EPBOT_ERR_BIDDING_FAILED).
Proof.
  intros h h' bytes env'.
  split; [reflexivity|].
  exact (epbot_get_next_bid_by_code h h' bytes 8 env0 env'
           EPBOT_ERR_BIDDING_FAILED (Some bytes) eq_refl).
Defined.

(** ** [epbot_get_bid] and [epbot_get_bid_count] *)

Lemma strncpy_store_frame (bytes bytes1 bytes2 : list ascii) (bid : string)
    (size : Z) :
  1 <= size →
  strncpy bytes bid (Z.to_nat (size - 1)) = Some bytes1 →
  store bytes1 (size - 1) NUL = Some bytes2 →
  length bytes2 = length bytes
  ∧ drop (Z.to_nat size) bytes2 = drop (Z.to_nat size) bytes.
Proof.
  intros Hsize Hcopy Hstore. unfold strncpy in Hcopy.
  set (n1 := Z.to_nat (size - 1)) in *.
  destruct (Nat.leb_spec n1 (length bytes)); [|discriminate].
  injection Hcopy as <-.
  unfold store in Hstore.
  destruct ((0 <=? size - 1) && (size - 1 <? _)); [|discriminate].
  injection Hstore as <-. fold n1.
  replace (Z.to_nat size) with (S n1) by (unfold n1; lia).
  split.
  - rewrite length_insert, length_app, length_take, length_drop,
      length_app, length_replicate. lia.
  - rewrite drop_insert_lt by lia.
    rewrite drop_app_ge
      by (rewrite length_take, length_app, length_replicate; lia).
    rewrite length_take, length_app, length_replicate, drop_drop.
    f_equal. lia.
Qed.

(** A path of [epbot_get_bid] that returns an error before any write. *)
Ltac refused :=
  eexists _, _, _; (split; [reflexivity|]);
  (split; [reflexivity|]); (split; [reflexivity|]);
  (split; [reflexivity|]);
  (split; [intros _; reflexivity|discriminate]).

(** [epbot_get_bid] is a pure reader that stays inside the caller's
    buffer: given a buffer that has the announced size, for every index
    and every state it returns, the instance and the engine trace are
    untouched, the buffer keeps its length and its bytes beyond the
    announced size, and on any code but [EPBOT_OK] the buffer is not
    written at all. *)
Theorem epbot_get_bid_frame
    {Engine} `{!EPBot Engine} (h : EPBotHandle Engine) (bid_index : Z)
    (bytes : list ascii) (buffer_size : Z) (env : Env) :
  buffer_size <= Z.of_nat (length bytes) →
  ∃ code bytes' env',
    epbot_get_bid (Some h) bid_index (Some bytes) buffer_size env
    = Normal (code, Some bytes') (Some h, env')
    ∧ length bytes' = length bytes
    ∧ drop (Z.to_nat buffer_size) bytes' = drop (Z.to_nat buffer_size) bytes
    ∧ engine_calls env' = engine_calls env
    ∧ (code ≠ EPBOT_OK → bytes' = bytes)
    ∧ (code = EPBOT_OK →
       env' = env ∧ 0 <= bid_index < Z.of_nat (length (auction h))).
Proof.
  intros Hroom. unfold epbot_get_bid.
  destruct (Z.ltb_spec buffer_size 1); run_body.
  { refused. }
  destruct (Z.ltb_spec bid_index 0); simpl.
  { refused. }
  destruct (Z.geb_spec bid_index (int_of_size (length (auction h))))
    as [|Hlt]; simpl.
  { refused. }
  assert (Z.to_nat bid_index < length (auction h))%nat as Hin.
  { pose proof (wrap32_le (Z.of_nat (length (auction h)))).
    unfold int_of_size in Hlt. lia. }
  unfold load. destruct (Z.leb_spec 0 bid_index); [|lia].
  destruct (lookup_lt_is_Some_2 _ _ Hin) as [bid ->]. simpl.
  destruct (int_of_size (String.length bid) >=? buffer_size); simpl.
  { refused. }
  destruct (strncpy bytes bid (Z.to_nat (buffer_size - 1))) as [bytes1|]
    eqn:Hcopy.
  2: { unfold strncpy in Hcopy.
       destruct (Nat.leb_spec (Z.to_nat (buffer_size - 1)) (length bytes));
         [discriminate|lia]. }
  simpl.
  destruct (store bytes1 (buffer_size - 1) NUL) as [bytes2|] eqn:Hstore.
  2: { exfalso. unfold strncpy in Hcopy.
       destruct (Nat.leb_spec (Z.to_nat (buffer_size - 1)) (length bytes));
         [|discriminate].
       injection Hcopy as <-. unfold store in Hstore.
       destruct (Z.leb_spec 0 (buffer_size - 1)); [|lia].
       simpl in Hstore.
       match type of Hstore with
       | context [?a <? ?b] => destruct (Z.ltb_spec a b) as [|Hshort]
       end; [discriminate|].
       revert Hshort.
       rewrite length_app, length_take, length_drop, length_app,
         length_replicate.
       lia. }
  simpl.
  destruct (strncpy_store_frame bytes bytes1 bytes2 bid buffer_size)
    as [Hlen Hdrop]; [lia|assumption|assumption|].
  eexists _, _, _. split; [reflexivity|].
  split; [assumption|]. split; [assumption|]. split; [reflexivity|].
  split; [intros Hne; contradiction|].
  intros _. split; [destruct env; reflexivity|lia].
Qed.

Lemma epbot_get_bid_frame_witness :
  let h := with_auction ["1H"; "Pass"]
             (created {| script := []; failing := [] |}) in
  let bytes := replicate 8 "x"%char in
  4 <= Z.of_nat (length bytes)
  ∧ ∃ code bytes' env',
      epbot_get_bid (Some h) 1 (Some bytes) 4 env0
      = Normal (code, Some bytes') (Some h, env')
      ∧ length bytes' = length bytes
      ∧ drop (Z.to_nat 4) bytes' = drop (Z.to_nat 4) bytes
      ∧ engine_calls env' = engine_calls env0
      ∧ (code ≠ EPBOT_OK → bytes' = bytes)
      ∧ (code = EPBOT_OK →
         env' = env0 ∧ 0 <= 1 < Z.of_nat (length (auction h))).
Proof.
  intros h bytes.
  assert (4 <= Z.of_nat (length bytes)) as Hroom by (simpl; lia).
  split; [exact Hroom|].
  exact (epbot_get_bid_frame h 1 bytes 4 env0 Hroom).
Defined.

(** What is written with [epbot_set_bid] is read back with
    [epbot_get_bid]: for an index from 0 on, after the write (whatever
    code it returned: the engine may have refused the forwarded bid),
    reading the same index into a buffer longer than the bid returns
    [EPBOT_OK] and leaves in the buffer the bid, NUL up to the announced
    size, and the old bytes beyond. *)
Theorem epbot_set_bid_get_bid
    {Engine} `{!EPBot Engine} (fuel : nat) (h : EPBotHandle Engine)
    (i : Z) (bid : string) (bytes : list ascii) (buffer_size : Z)
    (env : Env) :
  0 <= i < INT_MAX →
  Z.of_nat (length (auction h)) <= INT_MAX →
  (Z.to_nat (i + 1) - length (auction h) ≤ fuel)%nat →
  Z.of_nat (String.length bid) < buffer_size →
  buffer_size <= Z.of_nat (length bytes) →
  buffer_size <= INT_MAX →
  ∃ code h1 env1,
    epbot_set_bid fuel (Some h) i (Some bid) env = Normal code (Some h1, env1)
    ∧ epbot_get_bid (Some h1) i (Some bytes) buffer_size env1
      = Normal (EPBOT_OK, Some (copied_out bid (Z.to_nat buffer_size) bytes))
          (Some h1, env1).
Proof.
  intros Hi Hlen Hfuel Hfits Hroom Hint.
  eexists _, _, _.
  split; [apply epbot_set_bid_closed; assumption|].
  set (gap := (Z.to_nat (i + 1) - length (auction h))%nat).
  unfold epbot_get_bid.
  destruct (Z.ltb_spec buffer_size 1); [lia|].
  run_body.
  assert (length (<[Z.to_nat i := bid]> (auction h ++ replicate gap ""))
          = (length (auction h) + gap)%nat) as Hnew
    by (rewrite length_insert, length_app, length_replicate; reflexivity).
  rewrite Hnew.
  rewrite int_of_size_small by (unfold gap; lia).
  destruct (Z.ltb_spec i 0); [lia|].
  destruct (Z.geb_spec i (Z.of_nat (length (auction h) + gap)));
    [unfold gap in *; lia|].
  simpl. unfold load. destruct (Z.leb_spec 0 i); [|lia].
  rewrite list_lookup_insert_eq
    by (rewrite length_app, length_replicate; unfold gap; lia).
  simpl. rewrite int_of_size_small by lia.
  destruct (Z.geb_spec (Z.of_nat (String.length bid)) buffer_size); [lia|].
  destruct (copy_out_writes bytes bid buffer_size)
    as (bytes1 & -> & Hstore); [assumption| |].
  { pose proof (c_str_length bid). lia. }
  simpl. rewrite Hstore. simpl.
  destruct ((invoke (instance h) (set_bid bid)).2); reflexivity.
Qed.

Lemma epbot_set_bid_get_bid_witness :
  let h := created {| script := []; failing := [on_set_bid] |} in
  let bytes := replicate 8 "x"%char in
  (0 <= 2 < INT_MAX
   ∧ Z.of_nat (length (auction h)) <= INT_MAX
   ∧ (Z.to_nat (2 + 1) - length (auction h) ≤ 3)%nat
   ∧ Z.of_nat (String.length "2NT") < 8
   ∧ 8 <= Z.of_nat (length bytes)
   ∧ 8 <= INT_MAX)
  ∧ ∃ code h1 env1,
      epbot_set_bid 3 (Some h) 2 (Some "2NT") env0
      = Normal code (Some h1, env1)
      ∧ epbot_get_bid (Some h1) 2 (Some bytes) 8 env1
        = Normal (EPBOT_OK, Some (copied_out "2NT" (Z.to_nat 8) bytes))
            (Some h1, env1).
Proof.
  intros h bytes.
  assert (0 <= 2 < INT_MAX) as H1 by (unfold INT_MAX; lia).
  assert (Z.of_nat (length (auction h)) <= INT_MAX) as H2
    by (unfold INT_MAX; simpl; lia).
  assert (Z.to_nat (2 + 1) - length (auction h) ≤ 3)%nat as H3
    by (simpl; lia).
  assert (Z.of_nat (String.length "2NT") < 8) as H4 by (simpl; lia).
  assert (8 <= Z.of_nat (length bytes)) as H5 by (simpl; lia).
  assert (8 <= INT_MAX) as H6 by (unfold INT_MAX; lia).
  split; [auto 10|].
  exact (epbot_set_bid_get_bid 3 h 2 "2NT" bytes 8 env0 H1 H2 H3 H4 H5 H6).
Defined.

(** [epbot_get_bid_count] counts the placeholders too: after
    [epbot_set_bid] at an index from 0 on, it reports the larger of the
    old length and the index plus one, and changes nothing. *)
Theorem epbot_get_bid_count_after_set_bid
    {Engine} `{!EPBot Engine} (fuel : nat) (h : EPBotHandle Engine)
    (i : Z) (bid : string) (count : Z) (env : Env) :
  0 <= i < INT_MAX →
  Z.of_nat (length (auction h)) <= INT_MAX →
  (Z.to_nat (i + 1) - length (auction h) ≤ fuel)%nat →
  ∃ code h1 env1,
    epbot_set_bid fuel (Some h) i (Some bid) env = Normal code (Some h1, env1)
    ∧ epbot_get_bid_count (Some h1) (Some count) env1
      = Normal
          (EPBOT_OK, Some (Z.max (Z.of_nat (length (auction h))) (i + 1)))
          (Some h1, env1).
Proof.
  intros Hi Hlen Hfuel.
  eexists _, _, _.
  split; [apply epbot_set_bid_closed; assumption|].
  unfold epbot_get_bid_count. run_body.
  rewrite length_insert, length_app, length_replicate.
  rewrite int_of_size_small by lia.
  replace (Z.of_nat (length (auction h)
                     + (Z.to_nat (i + 1) - length (auction h))))
    with (Z.max (Z.of_nat (length (auction h))) (i + 1)) by lia.
  destruct ((invoke (instance h) (set_bid bid)).2); reflexivity.
Qed.

Lemma epbot_get_bid_count_after_set_bid_witness :
  let h := created {| script := []; failing := [] |} in
  (0 <= 5 < INT_MAX
   ∧ Z.of_nat (length (auction h)) <= INT_MAX
   ∧ (Z.to_nat (5 + 1) - length (auction h) ≤ 6)%nat)
  ∧ ∃ code h1 env1,
      epbot_set_bid 6 (Some h) 5 (Some "2C") env0
      = Normal code (Some h1, env1)
      ∧ epbot_get_bid_count (Some h1) (Some 0) env1
        = Normal
            (EPBOT_OK, Some (Z.max (Z.of_nat (length (auction h))) (5 + 1)))
            (Some h1, env1).
Proof.
  intros h.
  assert (0 <= 5 < INT_MAX) as H1 by (unfold INT_MAX; lia).
  assert (Z.of_nat (length (auction h)) <= INT_MAX) as H2
    by (unfold INT_MAX; simpl; lia).
  assert (Z.to_nat (5 + 1) - length (auction h) ≤ 6)%nat as H3
    by (simpl; lia).
  split; [auto|].
  exact (epbot_get_bid_count_after_set_bid 6 h 5 "2C" 0 env0 H1 H2 H3).
Defined.

(** ** [epbot_set_convention] *)

Lemma property_of_key_None (keyStr : string) :
  property_of_key keyStr = None ↔ keyStr ∉ known_keys.
Proof.
  unfold property_of_key, known_keys. rewrite list_elem_of_In. simpl.
  repeat match goal with
  | |- context [String.eqb keyStr ?s] =>
      destruct (String.eqb_spec keyStr s) as [->|?]; simpl
  end;
  try (split; [discriminate|intros Hout; exfalso; apply Hout; auto 20]).
  split; [intros _; intuition congruence|reflexivity].
Qed.

(** [epbot_set_convention] is keyed by exact name.  A key outside the
    thirteen names of its chain (a case variant such as "stayman"
    included) is accepted with [EPBOT_OK] and has no effect at all: no
    access to the engine, instance and error message as before.  A key
    among them costs exactly one access, the setter of its property with
    the given value, and the code is [EPBOT_OK] iff the engine accepted
    it, [EPBOT_ERR_CLR_EXCEPTION] otherwise.  The tracker is never
    changed. *)
Theorem epbot_set_convention_by_key
    {Engine} `{!EPBot Engine} (h : EPBotHandle Engine) (key : string)
    (value side : Z) (env : Env) :
  ∃ code h' env',
    epbot_set_convention (Some h) (Some key) value side env
    = Normal code (Some h', env')
    ∧ auction h' = auction h
    ∧ current_position h' = current_position h
    ∧ dealer h' = dealer h
    ∧ auction_started h' = auction_started h
    ∧ (c_str key ∉ known_keys → code = EPBOT_OK ∧ h' = h ∧ env' = env)
    ∧ (c_str key ∈ known_keys →
       ∃ property,
         property_of_key (c_str key) = Some property
         ∧ instance h'
           = (invoke (instance h) (set_convention property value)).1
         ∧ engine_calls env'
           = engine_calls env ++ [set_convention property value]
         ∧ (code = EPBOT_OK
            ↔ ∃ v, (invoke (instance h) (set_convention property value)).2
                   = Value v)
         ∧ (code = EPBOT_OK ∨ code = EPBOT_ERR_CLR_EXCEPTION)).
Proof.
  unfold epbot_set_convention, set_convention_rest. run_body.
  pose proof (property_of_key_None (c_str key)) as Hnone.
  destruct (property_of_key (c_str key)) as [property|]; simpl.
  - assert (c_str key ∈ known_keys) as Hin.
    { destruct (decide (c_str key ∈ known_keys)) as [|Hout]; [assumption|].
      apply Hnone in Hout. discriminate. }
    unfold engine. simpl.
    destruct (invoke (instance h) (set_convention property value))
      as [e [v|msg]] eqn:Hcall; simpl; eexists _, _, _;
      (split; [reflexivity|]);
      simpl; repeat (split; [reflexivity|]);
      (split; [intros Hout; contradiction|]); intros _;
      exists property; rewrite Hcall; simpl;
      repeat (split; [reflexivity|]).
    + split; [split; eauto|auto].
    + split; [split; [discriminate|intros [? ?]; discriminate]|auto].
  - assert (c_str key ∉ known_keys) as Hout by (apply Hnone; reflexivity).
    eexists _, _, _. split; [reflexivity|].
    repeat (split; [reflexivity|]).
    split; [intros _; destruct env; repeat split|].
    intros Hin. contradiction.
Qed.

(** A lower-case "stayman" is not the key "Stayman": nothing happens. *)
Example epbot_set_convention_stayman_lowercase :
  let h := created {| script := []; failing := [] |} in
  epbot_set_convention (Some h) (Some "stayman") 1 SIDE_NS env0
  = Normal EPBOT_OK (Some h, env0)
  ∧ epbot_set_convention (Some h) (Some "Stayman") 1 SIDE_NS env0
    = Normal EPBOT_OK
        (Some h, {| g_last_error := "";
                    engine_calls := [set_convention Stayman 1] |}).
Proof. split; reflexivity. Qed.

(** ** More on the auction rule *)

(** How one more call moves the rule.  After a call that is not a pass
    token the auction is never complete; a pass token after a complete
    auction leaves it complete; and a pass token completes an open
    auction exactly when the auction has at least three entries and its
    last two are pass tokens. *)
Theorem IsAuctionComplete_after_call (auction : list string) (bid : string) :
  (¬ PassToken bid → IsAuctionComplete (auction ++ [bid]) = Some false)
  ∧ (PassToken bid → IsAuctionComplete auction = Some true →
     IsAuctionComplete (auction ++ [bid]) = Some true)
  ∧ (PassToken bid →
     (IsAuctionComplete (auction ++ [bid]) = Some true
      ↔ ∃ front b3 b2, auction = front ++ [b3; b2]
          ∧ front ≠ [] ∧ PassToken b3 ∧ PassToken b2)).
Proof.
  rewrite !IsAuctionComplete_closed, length_app. simpl length.
  assert (∀ b, is_pass b = false ↔ ¬ PassToken b) as Hnot.
  { intros b. rewrite <- is_pass_PassToken. destruct (is_pass b); split;
      congruence. }
  split; [|split].
  - intros Hbid. f_equal. apply andb_false_iff. right.
    replace (length auction + 1 - 3)%nat with (length auction - 2)%nat by lia.
    rewrite drop_app_le by lia. rewrite forallb_app. simpl.
    apply Hnot in Hbid. rewrite Hbid. simpl. apply andb_false_r.
  - intros Hbid Hdone. apply (inj Some) in Hdone.
    apply andb_true_iff in Hdone as [Hlen Htail].
    apply Nat.leb_le in Hlen. f_equal. apply andb_true_iff. split.
    + apply Nat.leb_le. lia.
    + replace (length auction + 1 - 3)%nat with (S (length auction - 3)) by lia.
      rewrite drop_app_le by lia. rewrite forallb_app. simpl.
      apply is_pass_PassToken in Hbid. rewrite Hbid. simpl.
      rewrite andb_true_r.
      rewrite <- (take_drop 1 (drop (length auction - 3) auction)) in Htail.
      rewrite forallb_app in Htail. apply andb_true_iff in Htail as [_ Htail].
      rewrite drop_drop in Htail.
      replace (length auction - 3 + 1)%nat with (S (length auction - 3))
        in Htail by lia.
      exact Htail.
  - intros Hbid. apply is_pass_PassToken in Hbid. split.
    + intros Hdone. apply (inj Some) in Hdone.
      apply andb_true_iff in Hdone as [Hlen Htail].
      apply Nat.leb_le in Hlen.
      replace (length auction + 1 - 3)%nat with (length auction - 2)%nat
        in Htail by lia.
      rewrite drop_app_le in Htail by lia.
      rewrite forallb_app in Htail. apply andb_true_iff in Htail as [Htail _].
      exists (take (length auction - 2) auction).
      destruct (drop (length auction - 2) auction) as [|b3 [|b2 [|? ?]]] eqn:Hd;
        pose proof (f_equal length Hd) as Hl; rewrite length_drop in Hl;
        simpl in Hl; try lia.
      exists b3, b2. rewrite <- Hd, take_drop. split; [reflexivity|].
      split.
      * intros Hnil. apply (f_equal length) in Hnil.
        rewrite length_take in Hnil. simpl in Hnil. lia.
      * simpl in Htail. rewrite andb_true_r in Htail.
        apply andb_true_iff in Htail as [H3 H2].
        split; apply is_pass_PassToken; assumption.
    + intros (front & b3 & b2 & -> & Hfront & H3 & H2).
      apply is_pass_PassToken in H3, H2.
      rewrite length_app. simpl length. f_equal. apply andb_true_iff. split.
      * apply Nat.leb_le. destruct front; [contradiction|simpl; lia].
      * replace (length front + 2 + 1 - 3)%nat with (length front) by lia.
        rewrite <- app_assoc, drop_app_length. simpl.
        rewrite H3, H2, Hbid. reflexivity.
Qed.

(** ** More on the convention-file reader *)

(** Looking a key up in the parsed map gives the value of the last kept
    line with that key, and nothing when no kept line has it. *)
Theorem ParseBbsaFile_lookup (fs : FileSystem) (path content key : string) :
  fs path = Some content →
  ParseBbsaFile fs path !! key = last (stored_values key (getlines content)).
Proof.
  intros Hopen. unfold ParseBbsaFile. rewrite Hopen.
  induction (getlines content) as [|line lines IH] using rev_ind.
  - reflexivity.
  - rewrite foldl_app. simpl. unfold stored_values. rewrite omap_app. simpl.
    fold (stored_values key lines). unfold bbsa_step.
    destruct (bbsa_line line) as [[k value]|].
    + destruct (decide (k = key)) as [->|Hne].
      * rewrite lookup_insert_eq, last_snoc. reflexivity.
      * rewrite lookup_insert_ne by assumption. rewrite app_nil_r. exact IH.
    + rewrite app_nil_r. exact IH.
Qed.

Lemma ParseBbsaFile_lookup_witness :
  let content :=
    String.concat (String "010" EmptyString)
      ["Drury = 0"; "Stayman = 1"; "Drury = 2"] in
  let fs : FileSystem := λ _, Some content in
  fs "ns.bbsa" = Some content
  ∧ ParseBbsaFile fs "ns.bbsa" !! "Drury"
    = last (stored_values "Drury" (getlines content))
  ∧ last (stored_values "Drury" (getlines content)) = Some 2.
Proof.
  intros content fs.
  split; [reflexivity|].
  split; [|reflexivity].
  exact (ParseBbsaFile_lookup fs "ns.bbsa" content "Drury" eq_refl).
Defined.

Lemma back_app_char (s : string) (c : ascii) :
  StdString.back (s ++ String c EmptyString) = Some c.
Proof.
  induction s as [|d s IH]; [reflexivity|].
  simpl. rewrite IH. destruct (s ++ String c EmptyString)%string eqn:Hs;
    [|reflexivity].
  destruct s; discriminate.
Qed.

Lemma pop_back_app_char (s : string) (c : ascii) :
  StdString.pop_back (s ++ String c EmptyString) = s.
Proof.
  induction s as [|d s IH]; [reflexivity|].
  simpl. rewrite IH. destruct (s ++ String c EmptyString)%string eqn:Hs;
    [destruct s; discriminate|reflexivity].
Qed.

(** The reader does not care whether a line ends in a carriage return:
    a line that ends in CR LF in the file gives the entry of the same
    line ending in LF alone. *)
Theorem bbsa_line_carriage_return (line : string) :
  StdString.back line ≠ Some "013"%char →
  bbsa_line (line ++ CR) = bbsa_line line.
Proof.
  intros Hback. unfold CR.
  destruct line as [|c rest]; [reflexivity|].
  unfold bbsa_line.
  change (StdString.empty (String c rest ++ String "013" "")) with false.
  change (StdString.front (String c rest ++ String "013" ""))
    with (Some c).
  change (StdString.empty (String c rest)) with false.
  change (StdString.front (String c rest)) with (Some c).
  destruct (false || bool_decide (Some c = Some "#"%char)
            || bool_decide (Some c = Some ";"%char)); [reflexivity|].
  assert (without_cr (String c rest ++ String "013" "") = String c rest) as ->.
  { unfold without_cr.
    rewrite back_app_char, pop_back_app_char.
    rewrite bool_decide_eq_true_2 by reflexivity. reflexivity. }
  assert (without_cr (String c rest) = String c rest) as ->.
  { unfold without_cr.
    rewrite bool_decide_eq_false_2 by assumption.
    rewrite andb_false_r. reflexivity. }
  reflexivity.
Qed.

Lemma bbsa_line_carriage_return_witness :
  StdString.back "Stayman = 1" ≠ Some "013"%char
  ∧ bbsa_line ("Stayman = 1" ++ CR) = bbsa_line "Stayman = 1"
  ∧ bbsa_line "Stayman = 1" = Some ("Stayman", 1).
Proof.
  assert (StdString.back "Stayman = 1" ≠ Some "013"%char) as Hback
    by (simpl; discriminate).
  split; [exact Hback|].
  split; [|reflexivity].
  exact (bbsa_line_carriage_return "Stayman = 1" Hback).
Defined.

(** ** What every call keeps *)

Lemma tracker_step_invariant {Engine} (h h' : EPBotHandle Engine) :
  tracker_step h h' →
  tracker_invariant h →
  Z.of_nat (length (auction h)) < INT_MAX →
  tracker_invariant h'.
Proof.
  unfold tracker_invariant.
  intros Hstep (Hd & Hp & H0 & Hs) Hlen.
  destruct Hstep as [Ha Hc Hd' Hs'|Ha Hc Hd' Hs'|Ha Hc Hd' Hs'
                    |bid Ha Hc Hd' Hs'|Ha Hc Hd' Hs'];
    rewrite ?Ha, ?Hc, ?Hd', ?Hs'.
  - auto.
  - simpl. repeat split; try lia; try discriminate; auto.
  - auto.
  - rewrite wrap32_small by (unfold INT_MIN; lia).
    rewrite length_app. simpl length.
    repeat split; try lia; try discriminate.
    intros _ Hnil. destruct (auction h); discriminate.
  - repeat split; try lia; auto.
    intros Hst Hnil. apply Hs in Hst.
    rewrite Hnil in Ha. destruct (auction h); [contradiction|simpl in Ha; lia].
Qed.

(** The growing loop of [epbot_set_bid] throws nothing and only appends
    empty tokens. *)
Lemma extend_auction_effect
    {Engine} `{!EPBot Engine} (fuel : nat) (bid_index : Z)
    (h : EPBotHandle Engine) (env : Env) :
  match extend_auction fuel bid_index (h, env) with
  | Normal _ (h1, env1) =>
      env1 = env
      ∧ ∃ k, h1 = with_auction (auction h ++ replicate k "") h
  | Thrown _ _ => False
  | _ => True
  end.
Proof.
  revert h. induction fuel as [|fuel IH]; intros h; simpl; run_body.
  - destruct (int_of_size (length (auction h)) <=? bid_index); [exact I|].
    split; [reflexivity|]. exists 0%nat. simpl.
    rewrite app_nil_r, with_auction_same. reflexivity.
  - destruct (int_of_size (length (auction h)) <=? bid_index).
    + cbv beta iota delta [fst snd].
      specialize (IH (with_auction (auction h ++ [""]) h)).
      destruct (extend_auction fuel bid_index
                  (with_auction (auction h ++ [""]) h, env))
        as [u [h1 env1]|msg s| |]; try exact IH.
      destruct IH as [-> [k ->]]. split; [reflexivity|].
      exists (S k). simpl. rewrite <- app_assoc. reflexivity.
    + split; [reflexivity|]. exists 0%nat. simpl.
      rewrite app_nil_r, with_auction_same. reflexivity.
Qed.

Lemma tracker_step_instance {Engine} (e : Engine) (h : EPBotHandle Engine) :
  tracker_step h (with_instance e h).
Proof. apply step_same; reflexivity. Qed.

Lemma tracker_step_refl {Engine} (h : EPBotHandle Engine) : tracker_step h h.
Proof. apply step_same; reflexivity. Qed.

(** A run that ended: name its parts. *)
Ltac finished H :=
  inversion H; subst; clear H; eexists; (split; [reflexivity|]).

Lemma epbot_get_next_bid_step
    {Engine} `{!EPBot Engine} (h : EPBotHandle Engine)
    (buffer : option (list ascii)) (buffer_size : Z) (env : Env) r o env' :
  epbot_get_next_bid (Some h) buffer buffer_size env = Normal r (o, env') →
  ∃ h', o = Some h' ∧ tracker_step h h'
    ∧ (r.1 = EPBOT_OK → g_last_error env' = g_last_error env).
Proof.
  intros Hrun. unfold epbot_get_next_bid in Hrun.
  destruct buffer as [bytes|].
  2: { run_body_in Hrun. finished Hrun.
       split; [apply step_same; reflexivity|discriminate]. }
  destruct (buffer_size <? 1).
  { run_body_in Hrun. finished Hrun.
    split; [apply step_same; reflexivity|discriminate]. }
  run_body_in Hrun.
  destruct (IsAuctionComplete (auction h)) as [[|]|];
    simpl in Hrun; [| |discriminate].
  { finished Hrun. split; [apply step_same; reflexivity|discriminate]. }
  unfold engine in Hrun. simpl in Hrun.
  destruct (invoke (instance h) (set_Position (GetCurrentBidderPosition h)))
    as [e1 [v1|msg1]]; simpl in Hrun.
  2: { finished Hrun. split; [apply step_same; reflexivity|discriminate]. }
  destruct (invoke e1 get_bid) as [e2 [managed|msg2]]; simpl in Hrun.
  2: { finished Hrun. split; [apply step_same; reflexivity|discriminate]. }
  destruct (int_of_size _ >=? buffer_size); simpl in Hrun.
  { finished Hrun. split; [eapply step_bid; reflexivity|discriminate]. }
  destruct (strncpy bytes _ (Z.to_nat (buffer_size - 1)))
    as [bytes1|]; simpl in Hrun; [|discriminate].
  destruct (store bytes1 (buffer_size - 1) NUL) as [bytes2|];
    simpl in Hrun; [|discriminate].
  finished Hrun. split; [eapply step_bid; reflexivity|reflexivity].
Qed.

Lemma epbot_set_deal_step
    {Engine} `{!EPBot Engine} (h : EPBotHandle Engine)
    (deal_pbn : option string) (env : Env) r o env' :
  epbot_set_deal (Some h) deal_pbn env = Normal r (o, env') →
  ∃ h', o = Some h' ∧ tracker_step h h'
    ∧ (r = EPBOT_OK → g_last_error env' = g_last_error env).
Proof.
  intros Hrun. unfold epbot_set_deal in Hrun.
  destruct deal_pbn as [pbn|]; run_body_in Hrun.
  2: { finished Hrun. split; [apply step_same; reflexivity|discriminate]. }
  unfold engine in Hrun. simpl in Hrun.
  destruct (invoke (instance h) (set_HAND pbn)) as [e [v|msg]];
    simpl in Hrun; finished Hrun.
  - split; [apply step_reset; reflexivity|reflexivity].
  - split; [apply step_same; reflexivity|discriminate].
Qed.

Lemma epbot_set_dealer_step
    {Engine} `{!EPBot Engine} (h : EPBotHandle Engine) (d : Z)
    (env : Env) r o env' :
  epbot_set_dealer (Some h) d env = Normal r (o, env') →
  ∃ h', o = Some h' ∧ tracker_step h h'
    ∧ (r = EPBOT_OK → g_last_error env' = g_last_error env).
Proof.
  intros Hrun. unfold epbot_set_dealer in Hrun. run_body_in Hrun.
  destruct ((d <? DEALER_NORTH) || (d >? DEALER_WEST)) eqn:Hrange;
    simpl in Hrun.
  { finished Hrun. split; [apply step_same; reflexivity|discriminate]. }
  apply orb_false_iff in Hrange.
  unfold engine in Hrun. simpl in Hrun.
  destruct (invoke (instance h) (set_Dealer d)) as [e [v|msg]];
    simpl in Hrun; finished Hrun.
  - split; [apply step_dealer; simpl; first [reflexivity|lia]|reflexivity].
  - split; [apply step_dealer; simpl; first [reflexivity|lia]|discriminate].
Qed.

Lemma epbot_set_vulnerability_step
    {Engine} `{!EPBot Engine} (h : EPBotHandle Engine) (vul : Z)
    (env : Env) r o env' :
  epbot_set_vulnerability (Some h) vul env = Normal r (o, env') →
  ∃ h', o = Some h' ∧ tracker_step h h'
    ∧ (r = EPBOT_OK → g_last_error env' = g_last_error env).
Proof.
  intros Hrun. unfold epbot_set_vulnerability in Hrun. run_body_in Hrun.
  destruct ((vul <? VUL_NONE) || (vul >? VUL_BOTH)); simpl in Hrun.
  { finished Hrun. split; [apply step_same; reflexivity|discriminate]. }
  unfold engine in Hrun. simpl in Hrun.
  destruct (invoke (instance h) (set_Vulnerability vul)) as [e [v|msg]];
    simpl in Hrun; finished Hrun.
  - split; [apply step_same; reflexivity|reflexivity].
  - split; [apply step_same; reflexivity|discriminate].
Qed.

Lemma epbot_set_bid_step
    {Engine} `{!EPBot Engine} (fuel : nat) (h : EPBotHandle Engine)
    (bid_index : Z) (bid : option string) (env : Env) r o env' :
  epbot_set_bid fuel (Some h) bid_index bid env = Normal r (o, env') →
  ∃ h', o = Some h' ∧ tracker_step h h'
    ∧ (r = EPBOT_OK → g_last_error env' = g_last_error env).
Proof.
  intros Hrun. unfold epbot_set_bid in Hrun.
  destruct bid as [bid|].
  2: { run_body_in Hrun. finished Hrun.
       split; [apply step_same; reflexivity|discriminate]. }
  unfold exported, try_catch in Hrun.
  unfold mbind at 1, body_bind at 1 in Hrun.
  pose proof (extend_auction_effect fuel bid_index h env) as Hloop.
  destruct (extend_auction fuel bid_index (h, env))
    as [u [h1 env1]|msg s| |]; try discriminate; [|contradiction].
  destruct Hloop as [-> [k ->]].
  run_body_in Hrun.
  destruct (store (auction h ++ replicate k "") bid_index bid)
    as [sequence|] eqn:Hstore; simpl in Hrun; [|discriminate].
  assert (length (auction h) ≤ length sequence)%nat as Hgrow.
  { unfold store in Hstore. destruct (_ && _); [|discriminate].
    injection Hstore as <-. rewrite length_insert, length_app. lia. }
  unfold engine in Hrun. simpl in Hrun.
  destruct (invoke (instance h) (set_bid bid)) as [e [v|msg]];
    simpl in Hrun; finished Hrun.
  - split; [apply step_write; first [assumption|reflexivity]|reflexivity].
  - split; [apply step_write; first [assumption|reflexivity]|discriminate].
Qed.

Lemma epbot_get_bid_step
    {Engine} `{!EPBot Engine} (h : EPBotHandle Engine) (bid_index : Z)
    (buffer : option (list ascii)) (buffer_size : Z) (env : Env) r o env' :
  epbot_get_bid (Some h) bid_index buffer buffer_size env
  = Normal r (o, env') →
  ∃ h', o = Some h' ∧ tracker_step h h'
    ∧ (r.1 = EPBOT_OK → g_last_error env' = g_last_error env).
Proof.
  intros Hrun. unfold epbot_get_bid in Hrun.
  destruct buffer as [bytes|].
  2: { run_body_in Hrun. finished Hrun.
       split; [apply step_same; reflexivity|discriminate]. }
  destruct (buffer_size <? 1).
  { run_body_in Hrun. finished Hrun.
    split; [apply step_same; reflexivity|discriminate]. }
  run_body_in Hrun.
  destruct ((bid_index <? 0) || _); simpl in Hrun.
  { finished Hrun. split; [apply step_same; reflexivity|discriminate]. }
  destruct (load (auction h) bid_index) as [bid|]; simpl in Hrun;
    [|discriminate].
  destruct (int_of_size (String.length bid) >=? buffer_size); simpl in Hrun.
  { finished Hrun. split; [apply step_same; reflexivity|discriminate]. }
  destruct (strncpy bytes bid (Z.to_nat (buffer_size - 1))) as [bytes1|];
    simpl in Hrun; [|discriminate].
  destruct (store bytes1 (buffer_size - 1) NUL) as [bytes2|];
    simpl in Hrun; [|discriminate].
  finished Hrun. split; [apply step_same; reflexivity|reflexivity].
Qed.

Lemma epbot_get_bid_count_step
    {Engine} `{!EPBot Engine} (h : EPBotHandle Engine) (count : option Z)
    (env : Env) r o env' :
  epbot_get_bid_count (Some h) count env = Normal r (o, env') →
  ∃ h', o = Some h' ∧ tracker_step h h'
    ∧ (r.1 = EPBOT_OK → g_last_error env' = g_last_error env).
Proof.
  intros Hrun. unfold epbot_get_bid_count in Hrun.
  destruct count; run_body_in Hrun; finished Hrun.
  - split; [apply step_same; reflexivity|reflexivity].
  - split; [apply step_same; reflexivity|discriminate].
Qed.

Lemma epbot_clear_auction_step
    {Engine} `{!EPBot Engine} (h : EPBotHandle Engine)
    (env : Env) r o env' :
  epbot_clear_auction (Some h) env = Normal r (o, env') →
  ∃ h', o = Some h' ∧ tracker_step h h'
    ∧ (r = EPBOT_OK → g_last_error env' = g_last_error env).
Proof.
  intros Hrun. unfold epbot_clear_auction in Hrun. run_body_in Hrun.
  finished Hrun. split; [apply step_reset; reflexivity|reflexivity].
Qed.

Lemma epbot_is_auction_complete_step
    {Engine} `{!EPBot Engine} (h : EPBotHandle Engine)
    (is_complete : option bool) (env : Env) r o env' :
  epbot_is_auction_complete (Some h) is_complete env = Normal r (o, env') →
  ∃ h', o = Some h' ∧ tracker_step h h'
    ∧ (r.1 = EPBOT_OK → g_last_error env' = g_last_error env).
Proof.
  intros Hrun. unfold epbot_is_auction_complete in Hrun.
  destruct is_complete; run_body_in Hrun.
  - destruct (IsAuctionComplete (auction h)); simpl in Hrun; [|discriminate].
    finished Hrun. split; [apply step_same; reflexivity|reflexivity].
  - finished Hrun. split; [apply step_same; reflexivity|discriminate].
Qed.

Lemma epbot_set_convention_step
    {Engine} `{!EPBot Engine} (h : EPBotHandle Engine) (key : option string)
    (value side : Z) (env : Env) r o env' :
  epbot_set_convention (Some h) key value side env = Normal r (o, env') →
  ∃ h', o = Some h' ∧ tracker_step h h'
    ∧ (r = EPBOT_OK → g_last_error env' = g_last_error env).
Proof.
  intros Hrun. unfold epbot_set_convention, set_convention_rest in Hrun.
  destruct key as [key|]; run_body_in Hrun.
  2: { finished Hrun. split; [apply step_same; reflexivity|discriminate]. }
  destruct (property_of_key (c_str key)) as [property|]; simpl in Hrun.
  2: { finished Hrun. split; [apply step_same; reflexivity|reflexivity]. }
  unfold engine in Hrun. simpl in Hrun.
  destruct (invoke (instance h) (set_convention property value))
    as [e [v|msg]]; simpl in Hrun; finished Hrun.
  - split; [apply step_same; reflexivity|reflexivity].
  - split; [apply step_same; reflexivity|discriminate].
Qed.

Lemma epbot_load_conventions_step
    {Engine} `{!EPBot Engine} (fs : FileSystem) (order : Traversal)
    (h : EPBotHandle Engine) (file_path : option string) (side : Z)
    (env : Env) r o env' :
  epbot_load_conventions fs order (Some h) file_path side env
  = Normal r (o, env') →
  ∃ h', o = Some h' ∧ tracker_step h h'.
Proof.
  intros Hrun. unfold epbot_load_conventions in Hrun.
  destruct file_path as [path|].
  2: { run_body_in Hrun. finished Hrun. apply step_same; reflexivity. }
  unfold exported, try_catch in Hrun.
  destruct (bool_decide (ParseBbsaFile fs path = ∅)).
  { run_body_in Hrun. finished Hrun. apply step_same; reflexivity. }
  unfold mbind at 1, body_bind at 1 in Hrun.
  destruct (for_each_convention
              (entries order (ParseBbsaFile fs path)) side h env)
    as (env1 & Hloop & _).
  rewrite Hloop in Hrun. run_body_in Hrun.
  finished Hrun. apply step_same; reflexivity.
Qed.

(** The tracker invariant is kept by every exported function that takes
    an instance: from an instance whose dealer is a seat, whose cursor is
    between 0 and the number of recorded bids, is 0 while the auction has
    not started, and whose started auction has a bid (with room left
    below [INT_MAX] entries), every call that returns leaves such an
    instance, whatever its arguments, its return code and the answers of
    the engine. *)
Theorem tracker_invariant_kept
    {Engine} `{!EPBot Engine} (h : EPBotHandle Engine) :
  tracker_invariant h →
  Z.of_nat (length (auction h)) < INT_MAX →
  (∀ deal_pbn, keeps tracker_invariant h (λ i, epbot_set_deal i deal_pbn))
  ∧ (∀ d, keeps tracker_invariant h (λ i, epbot_set_dealer i d))
  ∧ (∀ vul, keeps tracker_invariant h (λ i, epbot_set_vulnerability i vul))
  ∧ (∀ buffer size,
       keeps tracker_invariant h (λ i, epbot_get_next_bid i buffer size))
  ∧ (∀ fuel index bid,
       keeps tracker_invariant h (λ i, epbot_set_bid fuel i index bid))
  ∧ (∀ index buffer size,
       keeps tracker_invariant h (λ i, epbot_get_bid i index buffer size))
  ∧ (∀ count, keeps tracker_invariant h (λ i, epbot_get_bid_count i count))
  ∧ keeps tracker_invariant h epbot_clear_auction
  ∧ (∀ is_complete,
       keeps tracker_invariant h
         (λ i, epbot_is_auction_complete i is_complete))
  ∧ (∀ fs order file_path side,
       keeps tracker_invariant h
         (λ i, epbot_load_conventions fs order i file_path side))
  ∧ (∀ key value side,
       keeps tracker_invariant h
         (λ i, epbot_set_convention i key value side)).
Proof.
  intros Hinv Hlen.
  assert (∀ h', tracker_step h h' → tracker_invariant h') as Hstep
    by (intros h' Hs; exact (tracker_step_invariant h h' Hs Hinv Hlen)).
  unfold keeps.
  repeat split; intros.
  - destruct (epbot_set_deal_step _ _ _ _ _ _ H) as (h' & -> & Hs & _); eauto.
  - destruct (epbot_set_dealer_step _ _ _ _ _ _ H) as (h' & -> & Hs & _); eauto.
  - destruct (epbot_set_vulnerability_step _ _ _ _ _ _ H)
      as (h' & -> & Hs & _); eauto.
  - destruct (epbot_get_next_bid_step _ _ _ _ _ _ _ H)
      as (h' & -> & Hs & _); eauto.
  - destruct (epbot_set_bid_step _ _ _ _ _ _ _ _ H)
      as (h' & -> & Hs & _); eauto.
  - destruct (epbot_get_bid_step _ _ _ _ _ _ _ _ H)
      as (h' & -> & Hs & _); eauto.
  - destruct (epbot_get_bid_count_step _ _ _ _ _ _ H)
      as (h' & -> & Hs & _); eauto.
  - destruct (epbot_clear_auction_step _ _ _ _ _ H)
      as (h' & -> & Hs & _); eauto.
  - destruct (epbot_is_auction_complete_step _ _ _ _ _ _ H)
      as (h' & -> & Hs & _); eauto.
  - destruct (epbot_load_conventions_step _ _ _ _ _ _ _ _ _ H)
      as (h' & -> & Hs); eauto.
  - destruct (epbot_set_convention_step _ _ _ _ _ _ _ _ H)
      as (h' & -> & Hs & _); eauto.
Qed.

Lemma tracker_invariant_kept_witness :
  let h := created {| script := ["1H"]; failing := [] |} in
  tracker_invariant h
  ∧ Z.of_nat (length (auction h)) < INT_MAX
  ∧ (∀ buffer size,
       keeps tracker_invariant h (λ i, epbot_get_next_bid i buffer size))
  ∧ (∀ fuel index bid,
       keeps tracker_invariant h (λ i, epbot_set_bid fuel i index bid)).
Proof.
  intros h.
  assert (tracker_invariant h) as Hinv.
  { unfold tracker_invariant, DEALER_NORTH, DEALER_WEST. simpl.
    repeat split; try lia; discriminate. }
  assert (Z.of_nat (length (auction h)) < INT_MAX) as Hlen
    by (unfold INT_MAX; simpl; lia).
  split; [exact Hinv|]. split; [exact Hlen|].
  pose proof (tracker_invariant_kept h Hinv Hlen) as Hkept.
  split; [apply Hkept|apply Hkept].
Defined.

(** A successful call does not touch the error message: after any
    exported function but [epbot_load_conventions] has returned
    [EPBOT_OK], [epbot_get_last_error] still gives the text it gave
    before the call, so a message read after a success may be that of an
    earlier failure.  [epbot_load_conventions] is the exception: it
    returns [EPBOT_OK] with the message of an engine exception it
    swallowed. *)
Theorem success_keeps_last_error
    {Engine} `{!EPBot Engine} (h : EPBotHandle Engine) :
  (∀ deal_pbn, quiet_on_success id h (λ i, epbot_set_deal i deal_pbn))
  ∧ (∀ d, quiet_on_success id h (λ i, epbot_set_dealer i d))
  ∧ (∀ vul, quiet_on_success id h (λ i, epbot_set_vulnerability i vul))
  ∧ (∀ buffer size,
       quiet_on_success fst h (λ i, epbot_get_next_bid i buffer size))
  ∧ (∀ fuel index bid,
       quiet_on_success id h (λ i, epbot_set_bid fuel i index bid))
  ∧ (∀ index buffer size,
       quiet_on_success fst h (λ i, epbot_get_bid i index buffer size))
  ∧ (∀ count, quiet_on_success fst h (λ i, epbot_get_bid_count i count))
  ∧ quiet_on_success id h epbot_clear_auction
  ∧ (∀ is_complete,
       quiet_on_success fst h (λ i, epbot_is_auction_complete i is_complete))
  ∧ (∀ key value side,
       quiet_on_success id h (λ i, epbot_set_convention i key value side))
  ∧ ¬ quiet_on_success id
        (created {| script := []; failing := [on_convention] |})
        (λ i, epbot_load_conventions (λ _, Some "Stayman = 1") listed i
                (Some "ns.bbsa") SIDE_NS).
Proof.
  unfold quiet_on_success, epbot_get_last_error, id.
  repeat split; try (intros * Hrun Hok).
  - destruct (epbot_set_deal_step _ _ _ _ _ _ Hrun) as (? & _ & _ & Hq); auto.
  - destruct (epbot_set_dealer_step _ _ _ _ _ _ Hrun) as (? & _ & _ & Hq);
      auto.
  - destruct (epbot_set_vulnerability_step _ _ _ _ _ _ Hrun)
      as (? & _ & _ & Hq); auto.
  - destruct (epbot_get_next_bid_step _ _ _ _ _ _ _ Hrun)
      as (? & _ & _ & Hq); auto.
  - destruct (epbot_set_bid_step _ _ _ _ _ _ _ _ Hrun)
      as (? & _ & _ & Hq); auto.
  - destruct (epbot_get_bid_step _ _ _ _ _ _ _ _ Hrun)
      as (? & _ & _ & Hq); auto.
  - destruct (epbot_get_bid_count_step _ _ _ _ _ _ Hrun)
      as (? & _ & _ & Hq); auto.
  - destruct (epbot_clear_auction_step _ _ _ _ _ Hrun)
      as (? & _ & _ & Hq); auto.
  - destruct (epbot_is_auction_complete_step _ _ _ _ _ _ Hrun)
      as (? & _ & _ & Hq); auto.
  - destruct (epbot_set_convention_step _ _ _ _ _ _ _ _ Hrun)
      as (? & _ & _ & Hq); auto.
  - intros Hquiet.
    specialize (Hquiet env0 EPBOT_OK
                  (Some (created {| script := []; failing := [on_convention] |}))
                  {| g_last_error := "engine fault";
                     engine_calls := [set_convention Stayman 1] |}).
    assert ("engine fault" = "") as Habsurd
      by (apply Hquiet; [vm_compute|]; reflexivity).
    discriminate.
Qed.

(** ** Instance management *)

